(** * youtube-batch-downloader: the job runner and the batch coordinator

    A shallow embedding of [server.js]: the promise returned by [runYtDlp]
    and the handler of [POST /api/download], with the child process, the
    identifier generator and the downloads directory as explicit inputs.

    Conventions of the embedding.
    - A JavaScript string is a [string] holding its UTF-8 bytes.  The
      patterns the code matches ([youtu], the job prefix, [.part]) are
      ASCII, so matching on bytes and on UTF-16 code units agree.
    - [undefined] and [null] are [None] of an [option]; where a field can be
      absent as well as [null], the two are told apart explicitly.
    - An exception is a value of [Completion]; a promise that is never
      settled is [Pending]. *)

From Stdlib Require Import ZArith String Ascii List Bool Lia DecimalString.
From stdpp Require Import list.
Import ListNotations.

Set Warnings "-register-all".

Open Scope string_scope.
Open Scope list_scope.

(** Concatenation of strings, [a + b] and template literals. *)
Infix "+:+" := String.append (at level 60, right associativity).

(** ** Strings *)

Module Str.

(** [s.startsWith(p)] *)
Definition startsWith (s p : string) : bool := String.prefix p s.

(** [s.endsWith(p)] *)
Definition endsWith (s p : string) : bool :=
  let n := String.length s in
  let m := String.length p in
  if (m <=? n)%nat then String.eqb (String.substring (n - m) m s) p else false.

(** Truthiness of a string: [Boolean(s)], [!!s], the test of [s || t]. *)
Definition truthy (s : string) : bool :=
  match s with
  | EmptyString => false
  | String _ _ => true
  end.

(** [a || b] on strings *)
Definition or (a b : string) : string := if truthy a then a else b.

(** Decimal rendering of an integer, as in [String(n)] and in a template
    literal. *)
Definition ofZ (z : Z) : string := NilZero.string_of_int (Z.to_int z).

Definition isUpper (c : ascii) : bool :=
  let n := nat_of_ascii c in ((65 <=? n) && (n <=? 90))%nat.

Definition toLower (c : ascii) : ascii :=
  if isUpper c then ascii_of_nat (nat_of_ascii c + 32) else c.

(** Does [s] begin with [pat], letters compared without case?  [pat] is
    given in lower case. *)
Fixpoint matchesAt (pat s : string) : bool :=
  match pat, s with
  | EmptyString, _ => true
  | String _ _, EmptyString => false
  | String p pat', String c s' => Ascii.eqb p (toLower c) && matchesAt pat' s'
  end.

(** [/pat/i.test(s)] for a pattern of plain letters: some position of [s]
    starts an occurrence of [pat].  Without the [u] flag a character
    outside ASCII never matches an ASCII letter, so bytes above 127 are
    compared as they are. *)
Fixpoint testCI (pat s : string) : bool :=
  matchesAt pat s ||
  match s with
  | EmptyString => false
  | String _ s' => testCI pat s'
  end.

Definition hexDigit (n : nat) : ascii :=
  if (n <? 10)%nat then ascii_of_nat (48 + n) else ascii_of_nat (55 + n).

(** The characters [encodeURIComponent] leaves alone:
    [A-Z a-z 0-9 - _ . ! ~ * ' ( )]. *)
Definition uriUnreserved (c : ascii) : bool :=
  let n := nat_of_ascii c in
  (((65 <=? n) && (n <=? 90)) || ((97 <=? n) && (n <=? 122)) ||
   ((48 <=? n) && (n <=? 57)) ||
   (n =? 45) || (n =? 95) || (n =? 46) || (n =? 33) || (n =? 126) ||
   (n =? 42) || (n =? 39) || (n =? 40) || (n =? 41))%nat.

(** [encodeURIComponent(s)]: every byte of the UTF-8 form that is not
    unreserved becomes [%XX] with upper-case hexadecimal digits. *)
Fixpoint encodeURIComponent (s : string) : string :=
  match s with
  | EmptyString => EmptyString
  | String c s' =>
      if uriUnreserved c then String c (encodeURIComponent s')
      else
        let n := nat_of_ascii c in
        String "%" (String (hexDigit (n / 16)) (String (hexDigit (n mod 16))
          (encodeURIComponent s')))
  end.

End Str.

(** ** Values of a parsed JSON body *)

(** What [express.json()] can put under [req.body.links].  [JNum] stands
    for an integer-valued number below 10^21 in size that the number type
    holds exactly, which [String] renders in decimal; larger numbers, which
    [String] renders with an exponent, and numbers with a fraction are left
    out.  The text of a number is never empty and never passes the check of
    the links. *)
Inductive JsValue : Type :=
| JNull
| JBool (b : bool)
| JNum (z : Z)
| JStr (s : string)
| JArr (elems : list JsValue)
| JObj (fields : list (string * JsValue)).

(** Result of an operation that may throw: the value, or the message of the
    exception. *)
Inductive Completion (A : Type) : Type :=
| Normal (a : A)
| Throw (message : string).
Arguments Normal {A} a.
Arguments Throw {A} message.

(** Text of the [TypeError] raised when an object has no usable
    [toString]/[valueOf]. *)
Definition cannotConvert : string := "Cannot convert object to primitive value".

Definition hasOwn (key : string) (fields : list (string * JsValue)) : bool :=
  existsb (fun kv => String.eqb (fst kv) key) fields.

(** [String(v)].  An array is joined with commas, [null] elements giving
    the empty text; a plain object gives ["[object Object]"], except that an
    own [toString] member, which parsed JSON can only make a non-function,
    leaves no way to a primitive and the conversion throws. *)
Fixpoint toStr (v : JsValue) : Completion string :=
  match v with
  | JNull => Normal "null"
  | JBool true => Normal "true"
  | JBool false => Normal "false"
  | JNum z => Normal (Str.ofZ z)
  | JStr s => Normal s
  | JArr elems =>
      let elem (x : JsValue) : Completion string :=
        match x with
        | JNull => Normal ""
        | _ => toStr x
        end in
      (fix join (l : list JsValue) : Completion string :=
         match l with
         | [] => Normal ""
         | x :: rest =>
             match elem x with
             | Throw m => Throw m
             | Normal s =>
                 match rest with
                 | [] => Normal s
                 | _ :: _ =>
                     match join rest with
                     | Throw m => Throw m
                     | Normal r => Normal (s +:+ "," +:+ r)
                     end
                 end
             end
         end) elems
  | JObj fields =>
      if hasOwn "toString" fields then Throw cannotConvert
      else Normal "[object Object]"
  end.

(** [arr.map(String)]: elements are converted left to right and the first
    exception ends the call. *)
Fixpoint mapString (l : list JsValue) : Completion (list string) :=
  match l with
  | [] => Normal []
  | v :: rest =>
      match toStr v with
      | Throw m => Throw m
      | Normal s =>
          match mapString rest with
          | Throw m => Throw m
          | Normal ss => Normal (s :: ss)
          end
      end
  end.

(** [arr.filter(Boolean)] on strings *)
Definition filterBoolean (l : list string) : list string :=
  List.filter Str.truthy l.

(** ** The downloads directory *)

(** The directory as the runner sees it when it scans: [readdirSync] lists
    the names or throws ([None]); [statSync(...).size] gives the size of a
    name or throws ([None]). *)
Record Dir : Type := {
  readdirSync : option (list string);
  statSize : string -> option Z
}.

(** The comparator handed to [sort]: [sb - sa], after both sizes have been
    read; a failing [statSync] throws out of it. *)
Definition bySizeDesc (d : Dir) (a b : string) : option Z :=
  match statSize d a with
  | None => None
  | Some sa =>
      match statSize d b with
      | None => None
      | Some sb => Some (sb - sa)%Z
      end
  end.

(** [Array.prototype.sort] with a comparator is a stable sort that an
    exception of the comparator aborts.  It is embedded as a stable
    insertion sort: [x] is put before the first [y] that the comparator does
    not order strictly before it.  With two or more elements each of them
    takes part in a comparison, with fewer the comparator is not called. *)
Fixpoint insertSorted (cmp : string -> string -> option Z) (x : string)
    (sorted : list string) : option (list string) :=
  match sorted with
  | [] => Some [x]
  | y :: ys =>
      match cmp x y with
      | None => None
      | Some c =>
          if (c <=? 0)%Z then Some (x :: y :: ys)
          else
            match insertSorted cmp x ys with
            | None => None
            | Some r => Some (y :: r)
            end
      end
  end.

Fixpoint sortWith (cmp : string -> string -> option Z) (l : list string)
    : option (list string) :=
  match l with
  | [] => Some []
  | x :: rest =>
      match sortWith cmp rest with
      | None => None
      | Some sorted => insertSorted cmp x sorted
      end
  end.

(** The prefix that ties a file to its job: [`${jobId} - `]. *)
Definition jobPrefix (jobId : string) : string := jobId +:+ " - ".

(** The predicate of [files.filter(...)]. *)
Definition isCandidate (jobId : string) (f : string) : bool :=
  Str.startsWith f (jobPrefix jobId) && negb (Str.endsWith f ".part").

(** The [try] block of the [close] handler: the value of [found] after it.
    Any exception inside leaves [found] at [null]. *)
Definition findOutput (d : Dir) (jobId : string) : option string :=
  match readdirSync d with
  | None => None
  | Some files =>
      let candidates := List.filter (isCandidate jobId) files in
      if (0 <? length candidates)%nat then
        match sortWith (bySizeDesc d) candidates with
        | None => None
        | Some sorted => head sorted
        end
      else None
  end.

(** ** The job runner *)

(** The two shapes of object the promise of [runYtDlp] is resolved with:
    [{ ok: false, err, stdout, stderr }] from the [error] handler and
    [{ ok, exitCode, filename, stdout, stderr }] from the [close] handler.
    [exitCode] is the code of the [close] event, [null] when a signal ended
    the process. *)
Inductive Outcome : Type :=
| SpawnError (err stdout stderr : string)
| Closed (ok : bool) (exitCode : option Z) (filename : option string)
    (stdout stderr : string).

Definition r_ok (r : Outcome) : bool :=
  match r with
  | SpawnError _ _ _ => false
  | Closed ok _ _ _ _ => ok
  end.

Definition r_stdout (r : Outcome) : string :=
  match r with
  | SpawnError _ out _ => out
  | Closed _ _ _ out _ => out
  end.

Definition r_stderr (r : Outcome) : string :=
  match r with
  | SpawnError _ _ e => e
  | Closed _ _ _ _ e => e
  end.

(** [r.filename]; [undefined] and [null] are both [None]. *)
Definition r_filename (r : Outcome) : option string :=
  match r with
  | SpawnError _ _ _ => None
  | Closed _ _ file _ _ => file
  end.

(** [r.exitCode]: [None] when the object has no such field, [Some None]
    for [null]. *)
Definition r_exitCode (r : Outcome) : option (option Z) :=
  match r with
  | SpawnError _ _ _ => None
  | Closed _ code _ _ _ => Some code
  end.

(** What the child process emits, in order. *)
Inductive Event : Type :=
| StdoutData (chunk : string)
| StderrData (chunk : string)
| ErrorEvent (message : string)
| CloseEvent (code : option Z).

(** An event whose handler calls [resolve]. *)
Definition settles (e : Event) : bool :=
  match e with
  | ErrorEvent _ | CloseEvent _ => true
  | _ => false
  end.

(** What the program does to the outside world: a call of [spawn] and a
    call of [fs.readdirSync]. *)
Inductive Effect : Type :=
| Spawn (command : string) (args : list string)
| Readdir (path : string).

(** The variables the handlers of one job close over, [settled] being the
    state of its promise, and the effects done so far. *)
Record Runner : Type := {
  stdout : string;
  stderr : string;
  settled : option Outcome;
  effects : list Effect
}.

(** [resolve(o)]: only the first call settles the promise. *)
Definition resolve (o : Outcome) (st : Runner) : Runner :=
  match settled st with
  | Some _ => st
  | None =>
      {| stdout := stdout st; stderr := stderr st; settled := Some o;
         effects := effects st |}
  end.

(** [!!found], [found ? _ : _] *)
Definition isFound (found : option string) : bool :=
  match found with
  | None => false
  | Some f => Str.truthy f
  end.

(** [code === 0] *)
Definition isZero (code : option Z) : bool :=
  match code with
  | Some c => (c =? 0)%Z
  | None => false
  end.

(** The handlers installed on the child, run on one event.
    [message] of [ErrorEvent] is [err.message], the empty text also
    standing for a falsy [err]. *)
Definition onEvent (downloads : string) (jobId : string) (d : Dir)
    (st : Runner) (e : Event) : Runner :=
  match e with
  | StdoutData chunk =>
      {| stdout := stdout st +:+ chunk; stderr := stderr st;
         settled := settled st; effects := effects st |}
  | StderrData chunk =>
      {| stdout := stdout st; stderr := stderr st +:+ chunk;
         settled := settled st; effects := effects st |}
  | ErrorEvent message =>
      resolve (SpawnError (Str.or message "yt-dlp spawn error")
                 (stdout st) (stderr st)) st
  | CloseEvent code =>
      let found := findOutput d jobId in
      let st' := {| stdout := stdout st; stderr := stderr st;
                    settled := settled st;
                    effects := effects st ++ [Readdir downloads] |} in
      let ok := isZero code && isFound found in
      let filename :=
        match found with
        | Some f =>
            if Str.truthy f then Some ("/downloads/" +:+ Str.encodeURIComponent f)
            else None
        | None => None
        end in
      resolve (Closed ok code filename (stdout st) (stderr st)) st'
  end.

(** The state of a promise when nothing more will happen to it. *)
Inductive Await (A : Type) : Type :=
| Fulfilled (a : A)
| Rejected (message : string)
| Pending.
Arguments Fulfilled {A} a.
Arguments Rejected {A} message.
Arguments Pending {A}.

(** What [spawn] does: it throws at once (the runtime refuses an argument,
    such as a text with a NUL character), or returns a child that emits
    [events]. *)
Inductive Spawned : Type :=
| SpawnThrows (message : string)
| Child (events : list Event).

(** The surroundings of one call of [runYtDlp]: the identifier [uuidv4()]
    returns, the behaviour of the child, and the downloads directory as it
    is when [close] fires. *)
Record Job : Type := {
  jobId : string;
  child : Spawned;
  dir : Dir
}.

Definition outTemplate (downloads jobId : string) : string :=
  downloads +:+ "/" +:+ jobId +:+ " - %(title)s.%(ext)s".

Definition ytDlpArgs (downloads jobId link : string) : list string :=
  ["--no-progress"; "--no-warnings"; "-o"; outTemplate downloads jobId; link].

Definition runEvents (downloads : string) (j : Job) (st : Runner)
    (events : list Event) : Runner :=
  fold_left (onEvent downloads (jobId j) (dir j)) events st.

(** [runYtDlp(link)]: the final state of the promise and the effects of
    the call.  An exception in the executor rejects the promise. *)
Definition runYtDlp (downloads : string) (j : Job) (link : string)
    : Await Outcome * list Effect :=
  let start := {| stdout := ""; stderr := ""; settled := None;
                  effects := [Spawn "yt-dlp" (ytDlpArgs downloads (jobId j) link)] |} in
  match child j with
  | SpawnThrows message => (Rejected message, effects start)
  | Child events =>
      let final := runEvents downloads j start events in
      (match settled final with
       | Some o => Fulfilled o
       | None => Pending
       end, effects final)
  end.

(** ** The batch coordinator *)

(** The records of the [results] array. *)
Inductive LinkResult : Type :=
| Invalid (link message : string)              (* { link, ok: false, message } *)
| Started (link : string)                      (* { link, status: 'started' } *)
| Downloaded (link : string) (file : option string)  (* { link, ok: true, file } *)
| Failed (link error : string).                (* { link, ok: false, error } *)

Definition linkOf (r : LinkResult) : string :=
  match r with
  | Invalid link _ | Started link | Downloaded link _ | Failed link _ => link
  end.

(** A record in its final form. *)
Definition isTerminal (r : LinkResult) : bool :=
  match r with
  | Started _ => false
  | _ => true
  end.

Inductive Body : Type :=
| Message (message : string)                   (* { message } *)
| Results (results : list LinkResult).         (* { results } *)

Record Response : Type := {
  status : nat;
  body : Body
}.

(** The process-wide surroundings: [DOWNLOADS_DIR] and, for the [n]-th
    call of [runYtDlp] of a request, the job it meets. *)
Record World : Type := {
  DOWNLOADS_DIR : string;
  jobs : nat -> Job
}.

Definition MAX : nat := 15.

Definition dquote : string := String (ascii_of_nat 34) EmptyString.

Definition msgNoLinks : string :=
  "Provide an array of youtube links in " +:+ dquote +:+ "links" +:+ dquote.

Definition msgTooMany : string :=
  "Max " +:+ Str.ofZ (Z.of_nat MAX) +:+ " links at once".

Definition msgNotYouTube : string := "Basic validation failed: not a YouTube link".

(** [/youtu/i.test(link)] *)
Definition isYouTube (link : string) : bool := Str.testCI "youtu" link.

(** [`exitCode ${r.exitCode}`] *)
Definition exitCodeText (code : option (option Z)) : string :=
  "exitCode " +:+
  match code with
  | None => "undefined"
  | Some None => "null"
  | Some (Some c) => Str.ofZ c
  end.

(** [r.stderr || r.stdout || `exitCode ${r.exitCode}`] *)
Definition errorText (r : Outcome) : string :=
  Str.or (r_stderr r) (Str.or (r_stdout r) (exitCodeText (r_exitCode r))).

(** The record that replaces the [started] one once the job is over. *)
Definition finalRecord (link : string) (r : Outcome) : LinkResult :=
  if r_ok r then Downloaded link (r_filename r)
  else Failed link (errorText r).

(** The [for] loop, from the links still to do, the number of jobs run so
    far, the [results] array and the effects so far.  [Pending] is a loop
    stuck at an [await] that never resumes, [Rejected] an exception leaving
    the loop. *)
Fixpoint processLinks (w : World) (links : list string) (n : nat)
    (results : list LinkResult) (log : list Effect)
    : Await (list LinkResult) * list Effect :=
  match links with
  | [] => (Fulfilled results, log)
  | link :: rest =>
      if negb (isYouTube link) then
        processLinks w rest n (results ++ [Invalid link msgNotYouTube]) log
      else
        let results1 := results ++ [Started link] in
        let (r, fx) := runYtDlp (DOWNLOADS_DIR w) (jobs w n) link in
        match r with
        | Fulfilled o =>
            let results2 :=
              <[(length results1 - 1)%nat := finalRecord link o]> results1 in
            processLinks w rest (S n) results2 (log ++ fx)
        | Rejected m => (Rejected m, log ++ fx)
        | Pending => (Pending, log ++ fx)
        end
  end.

(** The first statement of the handler:
    [Array.isArray(req.body.links) ? req.body.links.map(String).filter(Boolean) : []],
    on the value of [req.body.links], [None] when the body has no such
    member. *)
Definition extractLinks (field : option JsValue) : Completion (list string) :=
  match field with
  | Some (JArr elems) =>
      match mapString elems with
      | Throw m => Throw m
      | Normal ss => Normal (filterBoolean ss)
      end
  | _ => Normal []
  end.

(** The [catch] clause. *)
Definition internalError (message : string) : Response :=
  {| status := 500; body := Message (Str.or message "Internal server error") |}.

(** The handler of [POST /api/download] on the value of [req.body.links]:
    the response, [None] when none is ever sent, and the effects. *)
Definition postDownload (w : World) (field : option JsValue)
    : option Response * list Effect :=
  match extractLinks field with
  | Throw m => (Some (internalError m), [])
  | Normal links =>
      if (length links =? 0)%nat then
        (Some {| status := 400; body := Message msgNoLinks |}, [])
      else if (MAX <? length links)%nat then
        (Some {| status := 400; body := Message msgTooMany |}, [])
      else
        match processLinks w links 0 [] [] with
        | (Fulfilled results, log) =>
            (Some {| status := 200; body := Results results |}, log)
        | (Rejected m, log) => (Some (internalError m), log)
        | (Pending, log) => (None, log)
        end
  end.

(** The calls of [spawn] among some effects. *)
Definition spawnCount (log : list Effect) : nat :=
  length (List.filter (fun e => match e with Spawn _ _ => true | _ => false end) log).

(** The calls of [fs.readdirSync] among some effects. *)
Definition scanCount (log : list Effect) : nat :=
  length (List.filter (fun e => match e with Readdir _ => true | _ => false end) log).

(** ** Sample surroundings *)

Module Sample.

Definition emptyDir : Dir :=
  {| readdirSync := Some []; statSize := fun _ => None |}.

(** A directory holding the named files with their sizes. *)
Definition dirOf (entries : list (string * Z)) : Dir :=
  {| readdirSync := Some (map fst entries);
     statSize := fun f =>
       match List.find (fun e => String.eqb (fst e) f) entries with
       | Some e => Some (snd e)
       | None => None
       end |}.

Definition job (id : string) (events : list Event) (d : Dir) : Job :=
  {| jobId := id; child := Child events; dir := d |}.

(** Every job of the request behaves the same. *)
Definition always (j : Job) : World :=
  {| DOWNLOADS_DIR := "/srv/downloads"; jobs := fun _ => j |}.

Definition link1 : string := "https://youtu.be/abc".

End Sample.

(** ** Notions used in the statements *)

(** [g] is not larger than [f], as far as both sizes can be read. *)
Definition sizeLe (d : Dir) (g f : string) : Prop :=
  forall sg sf, statSize d g = Some sg -> statSize d f = Some sf -> (sg <= sf)%Z.

(** The head of a list dominates the rest. *)
Definition headTop (d : Dir) (l : list string) : Prop :=
  match l with
  | [] => True
  | f :: t => forall g, In g t -> sizeLe d g f
  end.

(** [f] is listed in the directory and passes the filter of job [id]. *)
Definition candidateIn (d : Dir) (id f : string) : Prop :=
  exists files, readdirSync d = Some files /\ In f files /\ isCandidate id f = true.


(** The settling event of a child: the first [error] or [close] it emits. *)
Definition firstSettling (events : list Event) : option Event :=
  List.find settles events.

(** The text that arrived on standard output before the settling event. *)
Fixpoint capturedOut (events : list Event) : string :=
  match events with
  | StdoutData chunk :: rest => chunk +:+ capturedOut rest
  | StderrData _ :: rest => capturedOut rest
  | _ => ""
  end.

(** The text that arrived on standard error before the settling event. *)
Fixpoint capturedErr (events : list Event) : string :=
  match events with
  | StderrData chunk :: rest => chunk +:+ capturedErr rest
  | StdoutData _ :: rest => capturedErr rest
  | _ => ""
  end.

Definition closeCount (events : list Event) : nat :=
  length (List.filter (fun e => match e with CloseEvent _ => true | _ => false end) events).

(** The object the [close] handler builds from the code, the scan and the
    two buffers. *)
Definition closedWith (d : Dir) (id : string) (code : option Z) (out err : string)
    : Outcome :=
  Closed (isZero code && isFound (findOutput d id)) code
    (match findOutput d id with
     | Some f => if Str.truthy f then Some ("/downloads/" +:+ Str.encodeURIComponent f) else None
     | None => None
     end) out err.

(** The child of the job emits an [error] or a [close], and [spawn] itself
    does not throw: the promise of the job gets fulfilled. *)
Definition jobSettles (j : Job) : bool :=
  match child j with
  | Child events => existsb settles events
  | SpawnThrows _ => false
  end.

(** How a link and its record in [results] are related. *)
Definition recordOf (link : string) (r : LinkResult) : Prop :=
  (isYouTube link = false /\ r = Invalid link msgNotYouTube) \/
  (isYouTube link = true /\ exists o, r = finalRecord link o).

(** The same job in a downloads directory that lists nothing. *)
Definition inEmptyDir (j : Job) : Job :=
  {| jobId := jobId j; child := child j;
     dir := {| readdirSync := Some []; statSize := statSize (dir j) |} |}.

(** ** Notions used in the further properties *)

(** [s] with its upper-case ASCII letters turned into lower case. *)
Fixpoint lowerCase (s : string) : string :=
  match s with
  | EmptyString => EmptyString
  | String c s' => String (Str.toLower c) (lowerCase s')
  end.

(** The events of a child up to and including the settling one. *)
Fixpoint upToSettled (events : list Event) : list Event :=
  match events with
  | [] => []
  | e :: rest => if settles e then [e] else e :: upToSettled rest
  end.

(** The job [j] with a child that emits [events]. *)
Definition withEvents (j : Job) (events : list Event) : Job :=
  {| jobId := jobId j; child := Child events; dir := dir j |}.

(** The directory [d] with another listing. *)
Definition withFiles (d : Dir) (files : list string) : Dir :=
  {| readdirSync := Some files; statSize := statSize d |}.

Definition isSpawn (e : Effect) : bool :=
  match e with
  | Spawn _ _ => true
  | _ => false
  end.

(** The calls of [spawn] the loop makes for [links] when the first of them
    gets job number [n]: one per link that passes the check, in order. *)
Definition spawnsFor (w : World) (n : nat) (links : list string) : list Effect :=
  map (fun kl => Spawn "yt-dlp"
                   (ytDlpArgs (DOWNLOADS_DIR w) (jobId (jobs w (fst kl))) (snd kl)))
    (combine (seq n (length (List.filter isYouTube links))) (List.filter isYouTube links)).

(** How a link and its record are related, with the job behind the record. *)
Definition madeBy (w : World) (link : string) (r : LinkResult) : Prop :=
  (isYouTube link = false /\ r = Invalid link msgNotYouTube) \/
  (isYouTube link = true /\
   exists k o, fst (runYtDlp (DOWNLOADS_DIR w) (jobs w k) link) = Fulfilled o /\
               r = finalRecord link o).

(** The value is, or holds through arrays, an object with a member named
    [toString]. *)
Fixpoint unconvertible (v : JsValue) : bool :=
  match v with
  | JArr elems => existsb unconvertible elems
  | JObj fields => hasOwn "toString" fields
  | _ => false
  end.

(** * Properties *)

(** ** Sample runs *)

Example toStr_nested :
  toStr (JArr [JNum 1; JArr [JNull; JStr "b"]; JBool true]) = Normal "1,,b,true".
Proof. reflexivity. Qed.

Example encode_title :
  Str.encodeURIComponent "ab - T t.mp4" = "ab%20-%20T%20t.mp4".
Proof. reflexivity. Qed.

Example test_youtu :
  Str.testCI "youtu" "https://YouTu.be/x" = true /\ Str.testCI "youtu" "https://vimeo.com/1" = false.
Proof. split; reflexivity. Qed.

Example ofZ_neg : Str.ofZ (-2) = "-2" /\ Str.ofZ 0 = "0".
Proof. split; reflexivity. Qed.

Example sample_ok :
  postDownload
    (Sample.always (Sample.job "j1" [StdoutData "done"; CloseEvent (Some 0%Z)]
       (Sample.dirOf [("j1 - T.mp4", 10%Z); ("j1 - T.jpg", 3%Z); ("j2 - U.mp4", 99%Z)])))
    (Some (JArr [JStr Sample.link1; JStr "nope"]))
  = (Some {| status := 200;
             body := Results [Downloaded Sample.link1 (Some "/downloads/j1%20-%20T.mp4");
                              Invalid "nope" msgNotYouTube] |},
     [Spawn "yt-dlp" ["--no-progress"; "--no-warnings"; "-o";
                      "/srv/downloads/j1 - %(title)s.%(ext)s"; Sample.link1];
      Readdir "/srv/downloads"]).
Proof. reflexivity. Qed.


(** A size that cannot be read aborts the sort of two candidates and
    leaves nothing found; a lone candidate is never looked up; a directory
    that cannot be listed gives nothing; of two candidates of one size the
    first listed is taken. *)
Example findOutput_corner_cases :
  findOutput {| readdirSync := Some ["j1 - a.mp4"; "j1 - b.mp4"];
                statSize := fun f => if String.eqb f "j1 - a.mp4" then Some 5%Z else None |}
    "j1" = None /\
  findOutput {| readdirSync := Some ["j1 - b.mp4"; "j2 - c.mp4"];
                statSize := fun _ => None |} "j1" = Some "j1 - b.mp4" /\
  findOutput {| readdirSync := None; statSize := fun _ => Some 1%Z |} "j1" = None /\
  findOutput (Sample.dirOf [("j1 - a.mp4", 5%Z); ("j1 - b.mp4", 5%Z)]) "j1"
    = Some "j1 - a.mp4".
Proof. repeat split. Qed.

(** ** Strings *)

Lemma append_empty_r (s : string) : s +:+ "" = s.
Proof. induction s as [|c s IH]; simpl; [reflexivity | now rewrite IH]. Qed.

Lemma append_assoc (a b c : string) : (a +:+ b) +:+ c = a +:+ (b +:+ c).
Proof. induction a as [|x a IH]; simpl; [reflexivity | now rewrite IH]. Qed.

Lemma append_length (a b : string) :
  String.length (a +:+ b) = (String.length a + String.length b)%nat.
Proof. induction a as [|x a IH]; simpl; [reflexivity | now rewrite IH]. Qed.

Lemma or_truthy (a b : string) : Str.truthy a = true -> Str.or a b = a.
Proof. unfold Str.or. now intros ->. Qed.

Lemma or_empty (b : string) : Str.or "" b = b.
Proof. reflexivity. Qed.

Lemma truthy_false (s : string) : Str.truthy s = false <-> s = "".
Proof. destruct s; simpl; split; congruence. Qed.

Lemma jobPrefix_truthy (id : string) : Str.truthy (jobPrefix id) = true.
Proof. unfold jobPrefix. destruct id; reflexivity. Qed.

(** A name that starts with a job prefix is not the empty text. *)
Lemma startsWith_truthy (f p : string) :
  Str.truthy p = true -> Str.startsWith f p = true -> Str.truthy f = true.
Proof.
  unfold Str.startsWith. destruct p as [|a p]; [discriminate|].
  destruct f; simpl; [discriminate | reflexivity].
Qed.

Lemma candidate_truthy (id f : string) :
  isCandidate id f = true -> Str.truthy f = true.
Proof.
  unfold isCandidate. intros H. apply andb_prop in H as [H _].
  eapply startsWith_truthy; [apply jobPrefix_truthy | exact H].
Qed.

(** ** The sort *)

Section Sorting.

Variable d : Dir.

Lemma sizeLe_refl (f : string) : sizeLe d f f.
Proof. intros sg sf H1 H2. rewrite H1 in H2. injection H2 as ->. lia. Qed.

Lemma bySizeDesc_Some (a b : string) (c : Z) :
  bySizeDesc d a b = Some c ->
  exists sa sb, statSize d a = Some sa /\ statSize d b = Some sb /\ c = (sb - sa)%Z.
Proof.
  unfold bySizeDesc. destruct (statSize d a) as [sa|]; [|discriminate].
  destruct (statSize d b) as [sb|]; [|discriminate].
  intros [= <-]. now exists sa, sb.
Qed.

Lemma insertSorted_In (x : string) (s r : list string) :
  insertSorted (bySizeDesc d) x s = Some r ->
  forall g, In g r <-> g = x \/ In g s.
Proof.
  revert r. induction s as [|y ys IH]; simpl; intros r H g.
  - injection H as <-. simpl. intuition.
  - destruct (bySizeDesc d x y) as [c|]; [|discriminate].
    destruct (c <=? 0)%Z.
    + injection H as <-. simpl. intuition.
    + destruct (insertSorted (bySizeDesc d) x ys) as [r'|]; [|discriminate].
      injection H as <-. simpl. rewrite (IH r' eq_refl g). intuition.
Qed.

Lemma insertSorted_length (x : string) (s r : list string) :
  insertSorted (bySizeDesc d) x s = Some r -> length r = S (length s).
Proof.
  revert r. induction s as [|y ys IH]; simpl; intros r H.
  - now injection H as <-.
  - destruct (bySizeDesc d x y) as [c|]; [|discriminate].
    destruct (c <=? 0)%Z.
    + now injection H as <-.
    + destruct (insertSorted (bySizeDesc d) x ys) as [r'|]; [|discriminate].
      injection H as <-. simpl. now rewrite (IH r' eq_refl).
Qed.

Lemma insertSorted_headTop (x : string) (s r : list string) :
  headTop d s -> insertSorted (bySizeDesc d) x s = Some r -> headTop d r.
Proof.
  destruct s as [|y ys]; simpl; intros Htop H.
  - injection H as <-. simpl. intros g [].
  - destruct (bySizeDesc d x y) as [c|] eqn:Hc; [|discriminate].
    apply bySizeDesc_Some in Hc as (sx & sy & Hx & Hy & ->).
    destruct (sy - sx <=? 0)%Z eqn:Hle.
    + injection H as <-. simpl. apply Z.leb_le in Hle.
      intros g [<- | Hg] sg sf Hsg Hsf.
      * rewrite Hy in Hsg. rewrite Hx in Hsf.
        injection Hsg as <-. injection Hsf as <-. lia.
      * rewrite Hx in Hsf. injection Hsf as <-.
        specialize (Htop g Hg sg sy Hsg Hy). lia.
    + destruct (insertSorted (bySizeDesc d) x ys) as [r'|] eqn:Hins; [|discriminate].
      injection H as <-. simpl. apply Z.leb_gt in Hle.
      intros g Hg. apply (insertSorted_In _ _ _ Hins) in Hg as [-> | Hg].
      * intros sg sf Hsg Hsf. rewrite Hx in Hsg. rewrite Hy in Hsf.
        injection Hsg as <-. injection Hsf as <-. lia.
      * now apply Htop.
Qed.

Lemma sortWith_In (l r : list string) :
  sortWith (bySizeDesc d) l = Some r -> forall g, In g r <-> In g l.
Proof.
  revert r. induction l as [|x l IH]; simpl; intros r H g.
  - now injection H as <-.
  - destruct (sortWith (bySizeDesc d) l) as [s|]; [|discriminate].
    rewrite (insertSorted_In _ _ _ H g), (IH s eq_refl g). intuition.
Qed.

Lemma sortWith_length (l r : list string) :
  sortWith (bySizeDesc d) l = Some r -> length r = length l.
Proof.
  revert r. induction l as [|x l IH]; simpl; intros r H.
  - now injection H as <-.
  - destruct (sortWith (bySizeDesc d) l) as [s|]; [|discriminate].
    rewrite (insertSorted_length _ _ _ H). now rewrite (IH s eq_refl).
Qed.

Lemma sortWith_headTop (l r : list string) :
  sortWith (bySizeDesc d) l = Some r -> headTop d r.
Proof.
  revert r. induction l as [|x l IH]; simpl; intros r H.
  - injection H as <-. exact I.
  - destruct (sortWith (bySizeDesc d) l) as [s|]; [|discriminate].
    eapply insertSorted_headTop; [apply (IH s eq_refl) | exact H].
Qed.



End Sorting.

(** ** The scan of the downloads directory *)

Lemma findOutput_Some (d : Dir) (id f : string) :
  findOutput d id = Some f ->
  candidateIn d id f /\ forall g, candidateIn d id g -> sizeLe d g f.
Proof.
  unfold findOutput, candidateIn.
  destruct (readdirSync d) as [files|]; [|discriminate].
  destruct (0 <? length (List.filter (isCandidate id) files))%nat; [|discriminate].
  destruct (sortWith (bySizeDesc d) (List.filter (isCandidate id) files))
    as [sorted|] eqn:Hsort; [|discriminate].
  destruct sorted as [|f' t]; simpl; [discriminate|]. intros [= ->].
  assert (Hf : In f (List.filter (isCandidate id) files))
    by (apply (sortWith_In _ _ _ Hsort); now left).
  apply filter_In in Hf as [Hf Hc]. split.
  - exists files. auto.
  - intros g (files' & [= <-] & Hg & Hgc).
    assert (Hg' : In g (f :: t))
      by (apply (sortWith_In _ _ _ Hsort), filter_In; auto).
    destruct Hg' as [<- | Hg'].
    + apply sizeLe_refl.
    + apply (sortWith_headTop _ _ _ Hsort g Hg').
Qed.

Lemma findOutput_no_candidate (d : Dir) (id : string) :
  (forall f, ~ candidateIn d id f) -> findOutput d id = None.
Proof.
  intros Hno. destruct (findOutput d id) as [f|] eqn:H; [|reflexivity].
  apply findOutput_Some in H as [H _]. now apply Hno in H.
Qed.



Lemma findOutput_truthy (d : Dir) (id f : string) :
  findOutput d id = Some f -> Str.truthy f = true.
Proof.
  intros H. apply findOutput_Some in H as [(files & _ & _ & Hc) _].
  now apply candidate_truthy in Hc.
Qed.

(** ** The promise of one job *)

Section Runner.

Variable downloads : string.
Variable j : Job.

Lemma resolve_effects (o : Outcome) (st : Runner) :
  effects (resolve o st) = effects st.
Proof. unfold resolve. now destruct (settled st). Qed.

Lemma resolve_settled (o o' : Outcome) (st : Runner) :
  settled st = Some o -> settled (resolve o' st) = Some o.
Proof. unfold resolve. intros H. now rewrite H. Qed.

Lemma onEvent_keeps (st : Runner) (e : Event) (o : Outcome) :
  settled st = Some o ->
  settled (onEvent downloads (jobId j) (dir j) st e) = Some o.
Proof.
  intros H. destruct e; simpl; try exact H; now apply resolve_settled.
Qed.

Lemma runEvents_keeps (events : list Event) (st : Runner) (o : Outcome) :
  settled st = Some o -> settled (runEvents downloads j st events) = Some o.
Proof.
  revert st. induction events as [|e events IH]; intros st H; simpl.
  - exact H.
  - apply IH. now apply onEvent_keeps.
Qed.

(** The promise is settled by the first [error] or [close], with the
    buffers as they are at that moment. *)
Lemma runEvents_settled (events : list Event) (st : Runner) :
  settled st = None ->
  settled (runEvents downloads j st events) =
  match firstSettling events with
  | None => None
  | Some (ErrorEvent m) =>
      Some (SpawnError (Str.or m "yt-dlp spawn error")
              (stdout st +:+ capturedOut events) (stderr st +:+ capturedErr events))
  | Some (CloseEvent code) =>
      Some (closedWith (dir j) (jobId j) code
              (stdout st +:+ capturedOut events) (stderr st +:+ capturedErr events))
  | Some _ => None
  end.
Proof.
  revert st. induction events as [|e events IH]; intros st H; simpl.
  - exact H.
  - destruct e as [c|c|m|code]; simpl.
    + rewrite IH by exact H. simpl. unfold firstSettling.
      destruct (List.find settles events) as [[]|]; now rewrite ?append_assoc.
    + rewrite IH by exact H. simpl. unfold firstSettling.
      destruct (List.find settles events) as [[]|]; now rewrite ?append_assoc.
    + rewrite !append_empty_r. apply runEvents_keeps.
      unfold resolve. now rewrite H.
    + rewrite !append_empty_r. apply runEvents_keeps.
      unfold resolve. simpl. rewrite H. simpl. unfold closedWith.
      now destruct (findOutput (dir j) (jobId j)).
Qed.

Lemma runEvents_effects (events : list Event) (st : Runner) :
  effects (runEvents downloads j st events) =
  effects st ++ repeat (Readdir downloads) (closeCount events).
Proof.
  revert st. induction events as [|e events IH]; intros st; simpl.
  - now rewrite app_nil_r.
  - rewrite IH. destruct e; simpl; rewrite ?resolve_effects; try reflexivity.
    unfold closeCount. simpl. now rewrite <- app_assoc.
Qed.

Variable link : string.

Lemma runYtDlp_error (events : list Event) (m : string) :
  child j = Child events -> firstSettling events = Some (ErrorEvent m) ->
  fst (runYtDlp downloads j link) =
  Fulfilled (SpawnError (Str.or m "yt-dlp spawn error")
               (capturedOut events) (capturedErr events)).
Proof.
  intros Hc Hf. unfold runYtDlp. rewrite Hc. simpl.
  rewrite runEvents_settled by reflexivity. now rewrite Hf.
Qed.

Lemma runYtDlp_close (events : list Event) (code : option Z) :
  child j = Child events -> firstSettling events = Some (CloseEvent code) ->
  fst (runYtDlp downloads j link) =
  Fulfilled (closedWith (dir j) (jobId j) code
               (capturedOut events) (capturedErr events)).
Proof.
  intros Hc Hf. unfold runYtDlp. rewrite Hc. simpl.
  rewrite runEvents_settled by reflexivity. now rewrite Hf.
Qed.

Lemma runYtDlp_pending (events : list Event) :
  child j = Child events -> firstSettling events = None ->
  fst (runYtDlp downloads j link) = Pending.
Proof.
  intros Hc Hf. unfold runYtDlp. rewrite Hc. simpl.
  rewrite runEvents_settled by reflexivity. now rewrite Hf.
Qed.

Lemma firstSettling_settles (events : list Event) (e : Event) :
  firstSettling events = Some e -> settles e = true.
Proof. intros H. now apply find_some in H as [_ H]. Qed.

(** The effects of a call: one [spawn], then one scan per [close]. *)
Lemma runYtDlp_effects :
  snd (runYtDlp downloads j link) =
  Spawn "yt-dlp" (ytDlpArgs downloads (jobId j) link) ::
  repeat (Readdir downloads)
    (match child j with Child events => closeCount events | SpawnThrows _ => 0%nat end).
Proof.
  unfold runYtDlp. destruct (child j) as [m|events]; simpl; [reflexivity|].
  now rewrite runEvents_effects.
Qed.

End Runner.

(** ** The loop over the links *)

Lemma firstSettling_exists (events : list Event) :
  existsb settles events = true -> exists e, firstSettling events = Some e.
Proof.
  unfold firstSettling. induction events as [|e events IH]; simpl; [discriminate|].
  destruct (settles e); [eauto | exact IH].
Qed.

Lemma runYtDlp_fulfilled (downloads : string) (j : Job) (link : string) :
  jobSettles j = true -> exists o, fst (runYtDlp downloads j link) = Fulfilled o.
Proof.
  unfold jobSettles. destruct (child j) as [m|events] eqn:Hc; [discriminate|].
  intros H. apply firstSettling_exists in H as [e He].
  pose proof (firstSettling_settles _ _ He) as Hs.
  destruct e as [c|c|m|code]; try discriminate.
  - eexists. exact (runYtDlp_error downloads j link events m Hc He).
  - eexists. exact (runYtDlp_close downloads j link events code Hc He).
Qed.

(** [results[results.length - 1] = x] right after a [push]. *)
Lemma insert_last (l : list LinkResult) (a x : LinkResult) :
  <[(length (l ++ [a]) - 1)%nat := x]> (l ++ [a]) = l ++ [x].
Proof.
  rewrite length_app. simpl.
  replace (length l + 1 - 1)%nat with (length l + 0)%nat by lia.
  now rewrite insert_app_r.
Qed.

Lemma finalRecord_link (link : string) (o : Outcome) :
  linkOf (finalRecord link o) = link.
Proof. unfold finalRecord. now destruct (r_ok o). Qed.

Lemma finalRecord_terminal (link : string) (o : Outcome) :
  isTerminal (finalRecord link o) = true.
Proof. unfold finalRecord. now destruct (r_ok o). Qed.

Lemma recordOf_link (link : string) (r : LinkResult) :
  recordOf link r -> linkOf r = link /\ isTerminal r = true.
Proof.
  intros [[_ ->] | [_ [o ->]]]; [now split|].
  split; [apply finalRecord_link | apply finalRecord_terminal].
Qed.

Lemma recordOf_all (links : list string) (rs : list LinkResult) :
  Forall2 recordOf links rs ->
  length rs = length links /\ map linkOf rs = links /\
  Forall (fun r => isTerminal r = true) rs.
Proof.
  induction 1 as [|link r links rs H _ (IH1 & IH2 & IH3)]; simpl.
  - repeat split. constructor.
  - apply recordOf_link in H as [H1 H2].
    repeat split; [now rewrite IH1 | now rewrite H1, IH2 | now constructor].
Qed.

Section Loop.

Variable w : World.

Lemma processLinks_invalid (link : string) (rest : list string) (n : nat)
    (results : list LinkResult) (log : list Effect) :
  isYouTube link = false ->
  processLinks w (link :: rest) n results log =
  processLinks w rest n (results ++ [Invalid link msgNotYouTube]) log.
Proof. intros H. simpl. now rewrite H. Qed.

Lemma processLinks_run (link : string) (rest : list string) (n : nat)
    (results : list LinkResult) (log : list Effect) (o : Outcome) :
  isYouTube link = true ->
  fst (runYtDlp (DOWNLOADS_DIR w) (jobs w n) link) = Fulfilled o ->
  processLinks w (link :: rest) n results log =
  processLinks w rest (S n) (results ++ [finalRecord link o])
    (log ++ snd (runYtDlp (DOWNLOADS_DIR w) (jobs w n) link)).
Proof.
  intros Hy Ho. cbn [processLinks]. rewrite Hy. cbn [negb].
  destruct (runYtDlp (DOWNLOADS_DIR w) (jobs w n) link) as [r fx].
  simpl in Ho. subst r. now rewrite insert_last.
Qed.

(** When every job settles the loop runs to its end and leaves one final
    record per link, in the order of the links. *)
Lemma processLinks_complete (links : list string) :
  (forall k, jobSettles (jobs w k) = true) ->
  forall n results log,
  exists rs log',
    processLinks w links n results log = (Fulfilled (results ++ rs), log') /\
    Forall2 recordOf links rs.
Proof.
  intros Hset. induction links as [|link rest IH]; intros n results log.
  - exists [], log. simpl. rewrite app_nil_r. split; [reflexivity | constructor].
  - destruct (isYouTube link) eqn:Hy.
    + destruct (runYtDlp_fulfilled (DOWNLOADS_DIR w) (jobs w n) link (Hset n))
        as [o Ho].
      rewrite (processLinks_run _ _ _ _ _ o Hy Ho).
      destruct (IH (S n) (results ++ [finalRecord link o])
                  (log ++ snd (runYtDlp (DOWNLOADS_DIR w) (jobs w n) link)))
        as (rs & log' & Heq & Hrs).
      exists (finalRecord link o :: rs), log'. rewrite Heq, <- app_assoc.
      split; [reflexivity|]. constructor; [|exact Hrs]. right. eauto.
    + rewrite (processLinks_invalid _ _ _ _ _ Hy).
      destruct (IH n (results ++ [Invalid link msgNotYouTube]) log)
        as (rs & log' & Heq & Hrs).
      exists (Invalid link msgNotYouTube :: rs), log'. rewrite Heq, <- app_assoc.
      split; [reflexivity|]. constructor; [|exact Hrs]. now left.
Qed.

(** Every call of [spawn] made by the loop is for a link that passed the
    check. *)
Lemma processLinks_spawns (links : list string) :
  forall n results log cmd args,
  In (Spawn cmd args) (snd (processLinks w links n results log)) ->
  In (Spawn cmd args) log \/
  exists link k, In link links /\ isYouTube link = true /\ cmd = "yt-dlp" /\
    args = ytDlpArgs (DOWNLOADS_DIR w) (jobId (jobs w k)) link.
Proof.
  induction links as [|link rest IH]; intros n results log cmd args Hin.
  - now left.
  - cbn [processLinks] in Hin. destruct (isYouTube link) eqn:Hy; cbn [negb] in Hin.
    + pose proof (runYtDlp_effects (DOWNLOADS_DIR w) (jobs w n) link) as Hfx.
      destruct (runYtDlp (DOWNLOADS_DIR w) (jobs w n) link) as [r fx].
      simpl in Hfx.
      assert (Hlog : In (Spawn cmd args) (log ++ fx) ->
                     In (Spawn cmd args) log \/
                     exists link0 k, In link0 (link :: rest) /\ isYouTube link0 = true /\
                       cmd = "yt-dlp" /\
                       args = ytDlpArgs (DOWNLOADS_DIR w) (jobId (jobs w k)) link0).
      { intros H. apply in_app_or in H as [H | H]; [now left|]. right.
        rewrite Hfx in H. destruct H as [H | H].
        - injection H as <- <-. exists link, n. simpl. auto.
        - apply repeat_spec in H. discriminate. }
      destruct r as [o|m|].
      * apply IH in Hin as [Hin | (l0 & k & H1 & H2)]; [now apply Hlog|].
        right. exists l0, k. simpl. tauto.
      * now apply Hlog.
      * now apply Hlog.
    + apply IH in Hin as [Hin | (l0 & k & H1 & H2)]; [now left|].
      right. exists l0, k. simpl. tauto.
Qed.

End Loop.

(** ** The links of a request *)

Lemma mapString_JStr (strs : list string) : mapString (map JStr strs) = Normal strs.
Proof. induction strs as [|s strs IH]; simpl; [reflexivity | now rewrite IH]. Qed.

Lemma filterBoolean_id (strs : list string) :
  Forall (fun s => s <> "") strs -> filterBoolean strs = strs.
Proof.
  unfold filterBoolean. induction 1 as [|s strs Hs _ IH]; simpl; [reflexivity|].
  destruct s; [congruence|]. simpl. now rewrite IH.
Qed.

Lemma filterBoolean_drop (pre post : list string) :
  filterBoolean (pre ++ "" :: post) = filterBoolean (pre ++ post).
Proof. unfold filterBoolean. now rewrite !List.filter_app. Qed.

(** The handler on a request whose links pass both checks. *)
Lemma postDownload_accepted (w : World) (elems : list JsValue) (ss : list string) :
  mapString elems = Normal ss ->
  (1 <= length (filterBoolean ss) <= MAX)%nat ->
  postDownload w (Some (JArr elems)) =
  match processLinks w (filterBoolean ss) 0 [] [] with
  | (Fulfilled results, log) => (Some {| status := 200; body := Results results |}, log)
  | (Rejected m, log) => (Some (internalError m), log)
  | (Pending, log) => (None, log)
  end.
Proof.
  intros Hm [H1 H2]. unfold postDownload, extractLinks. rewrite Hm.
  destruct (Nat.eqb_spec (length (filterBoolean ss)) 0) as [E|_]; [lia|].
  destruct (Nat.ltb_spec MAX (length (filterBoolean ss))) as [E|_]; [lia|].
  reflexivity.
Qed.

Lemma postDownload_completes (w : World) (elems : list JsValue) (ss : list string) :
  mapString elems = Normal ss ->
  (1 <= length (filterBoolean ss) <= MAX)%nat ->
  (forall k, jobSettles (jobs w k) = true) ->
  exists results log,
    postDownload w (Some (JArr elems)) =
      (Some {| status := 200; body := Results results |}, log) /\
    Forall2 recordOf (filterBoolean ss) results.
Proof.
  intros Hm Hlen Hset. rewrite (postDownload_accepted w elems ss Hm Hlen).
  destruct (processLinks_complete w (filterBoolean ss) Hset 0%nat [] [])
    as (rs & log' & Heq & Hrs).
  rewrite Heq. simpl. eauto.
Qed.

(** ** The outcome of a job *)

Lemma isZero_true (code : option Z) : isZero code = true <-> code = Some 0%Z.
Proof.
  destruct code as [c|]; simpl; [|split; discriminate].
  rewrite Z.eqb_eq. split; [now intros -> | now intros [= ->]].
Qed.


Lemma candidateIn_spec (d : Dir) (id f : string) :
  candidateIn d id f <->
  exists files, readdirSync d = Some files /\ In f files /\
    Str.startsWith f (id +:+ " - ") = true /\ Str.endsWith f ".part" = false.
Proof.
  unfold candidateIn, isCandidate, jobPrefix.
  split; intros (files & H1 & H2 & H3); exists files; repeat split; try assumption.
  - now apply andb_prop in H3 as [H3 _].
  - apply andb_prop in H3 as [_ H3]. now apply negb_true_iff in H3.
  - destruct H3 as [-> ->]. reflexivity.
Qed.






(** Claim C3.  The scan never returns a name that ends in [.part].  When
    every listed file that starts with the prefix of the job ends in
    [.part], a child settled by [close] gives [ok: false] with no file
    reference whatever its exit code, the same outcome as in a directory
    that lists nothing, and the record of the link is a failure. *)
Theorem partial_files_never_selected (downloads : string) (j : Job)
    (link : string) (events : list Event) (code : option Z) :
  child j = Child events ->
  firstSettling events = Some (CloseEvent code) ->
  (forall files f, readdirSync (dir j) = Some files -> In f files ->
     Str.startsWith f (jobPrefix (jobId j)) = true ->
     Str.endsWith f ".part" = true) ->
  (forall d id f, findOutput d id = Some f -> Str.endsWith f ".part" = false) /\
  findOutput (dir j) (jobId j) = None /\
  fst (runYtDlp downloads j link) =
    Fulfilled (Closed false code None (capturedOut events) (capturedErr events)) /\
  fst (runYtDlp downloads j link) = fst (runYtDlp downloads (inEmptyDir j) link) /\
  exists error,
    finalRecord link (Closed false code None (capturedOut events) (capturedErr events))
    = Failed link error.
Proof.
  intros Hc He Hpart.
  assert (Hnone : findOutput (dir j) (jobId j) = None).
  { apply findOutput_no_candidate. intros f (files & Hdir & Hin & Hcand).
    unfold isCandidate in Hcand. apply andb_prop in Hcand as [Hp Hn].
    rewrite (Hpart files f Hdir Hin Hp) in Hn. discriminate. }
  assert (Hrun : fst (runYtDlp downloads j link) =
            Fulfilled (Closed false code None (capturedOut events) (capturedErr events))).
  { rewrite (runYtDlp_close downloads j link events code Hc He).
    unfold closedWith. rewrite Hnone. simpl. now rewrite andb_false_r. }
  split; [|split; [exact Hnone | split; [exact Hrun | split]]].
  - intros d id f Hf. apply findOutput_Some in Hf as [Hf _].
    apply candidateIn_spec in Hf as (files & _ & _ & _ & Hf). exact Hf.
  - rewrite Hrun.
    rewrite (runYtDlp_close downloads (inEmptyDir j) link events code Hc He).
    unfold closedWith. simpl. now rewrite andb_false_r.
  - eexists. reflexivity.
Qed.

(** A job that exits with 0 and leaves only a partial file. *)
Lemma partial_files_never_selected_witness :
  let j := Sample.job "j1" [CloseEvent (Some 0%Z)]
             (Sample.dirOf [("j1 - T.mp4.part", 10%Z); ("j2 - U.mp4", 99%Z)]) in
  findOutput (dir j) (jobId j) = None /\
  fst (runYtDlp "/srv/downloads" j Sample.link1) =
    Fulfilled (Closed false (Some 0%Z) None "" "") /\
  fst (runYtDlp "/srv/downloads" j Sample.link1) =
    fst (runYtDlp "/srv/downloads" (inEmptyDir j) Sample.link1).
Proof.
  assert (H := partial_files_never_selected "/srv/downloads"
           (Sample.job "j1" [CloseEvent (Some 0%Z)]
              (Sample.dirOf [("j1 - T.mp4.part", 10%Z); ("j2 - U.mp4", 99%Z)]))
           Sample.link1 [CloseEvent (Some 0%Z)] (Some 0%Z) eq_refl eq_refl).
  simpl in H.
  destruct H as (_ & H1 & H2 & H3 & _).
  - intros files f [= <-] [<- | [<- | []]] Hp; [reflexivity | discriminate].
  - exact (conj H1 (conj H2 H3)).
Defined.

(** ** The error text of a failed link *)

(** Claim C6.  When the child is settled by a [close] whose exit code is a
    number other than 0, the job fails and the record of the link is
    [{ link, ok: false, error }] where [error] is the captured standard
    error when that is not empty, else the captured standard output when
    that is not empty, else [exitCode] followed by the code in decimal; the
    loop replaces the [started] record of the link by this record and goes
    on with the next link. *)
Theorem nonzero_exit_error_text (w : World) (n : nat) (link : string)
    (events : list Event) (c : Z) :
  isYouTube link = true ->
  child (jobs w n) = Child events ->
  firstSettling events = Some (CloseEvent (Some c)) ->
  c <> 0%Z ->
  exists o error,
    fst (runYtDlp (DOWNLOADS_DIR w) (jobs w n) link) = Fulfilled o /\
    r_ok o = false /\
    r_stdout o = capturedOut events /\
    r_stderr o = capturedErr events /\
    finalRecord link o = Failed link error /\
    (capturedErr events <> "" -> error = capturedErr events) /\
    (capturedErr events = "" -> capturedOut events <> "" ->
       error = capturedOut events) /\
    (capturedErr events = "" -> capturedOut events = "" ->
       error = "exitCode " +:+ Str.ofZ c) /\
    forall rest results log,
      processLinks w (link :: rest) n results log =
      processLinks w rest (S n) (results ++ [Failed link error])
        (log ++ snd (runYtDlp (DOWNLOADS_DIR w) (jobs w n) link)).
Proof.
  intros Hy Hc He Hnz.
  pose proof (runYtDlp_close (DOWNLOADS_DIR w) (jobs w n) link events (Some c) Hc He)
    as Hrun.
  assert (Hz : isZero (Some c) = false) by (simpl; now apply Z.eqb_neq).
  unfold closedWith in Hrun. rewrite Hz in Hrun. simpl in Hrun.
  eexists. eexists. split; [exact Hrun|].
  split; [reflexivity|]. split; [reflexivity|]. split; [reflexivity|].
  split; [reflexivity|].
  split; [|split; [|split]].
  - unfold errorText. simpl. intros H. apply or_truthy.
    destruct (capturedErr events); [congruence | reflexivity].
  - unfold errorText. simpl. intros -> H. rewrite or_empty. apply or_truthy.
    destruct (capturedOut events); [congruence | reflexivity].
  - unfold errorText. simpl. now intros -> ->.
  - intros rest results log.
    now rewrite (processLinks_run w link rest n results log _ Hy Hrun).
Qed.

(** A download that writes to both streams and exits with 1. *)
Lemma nonzero_exit_error_text_witness :
  let w := Sample.always
             (Sample.job "j1" [StdoutData "out"; StderrData "ERROR: "; StderrData "gone";
                               CloseEvent (Some 1%Z)] Sample.emptyDir) in
  fst (postDownload w (Some (JArr [JStr Sample.link1]))) =
    Some {| status := 200; body := Results [Failed Sample.link1 "ERROR: gone"] |} /\
  exists o error,
    fst (runYtDlp (DOWNLOADS_DIR w) (jobs w 0%nat) Sample.link1) = Fulfilled o /\
    r_ok o = false /\
    finalRecord Sample.link1 o = Failed Sample.link1 error /\
    error = "ERROR: gone".
Proof.
  split; [reflexivity|].
  destruct (nonzero_exit_error_text
              (Sample.always
                 (Sample.job "j1" [StdoutData "out"; StderrData "ERROR: "; StderrData "gone";
                                   CloseEvent (Some 1%Z)] Sample.emptyDir))
              0%nat Sample.link1
              [StdoutData "out"; StderrData "ERROR: "; StderrData "gone";
               CloseEvent (Some 1%Z)] 1%Z eq_refl eq_refl eq_refl)
    as (o & error & H1 & H2 & _ & _ & H3 & H4 & _).
  - discriminate.
  - exists o, error. repeat split; try assumption. apply H4. discriminate.
Defined.

Example exit_text_only :
  fst (postDownload (Sample.always (Sample.job "j1" [CloseEvent (Some 2%Z)] Sample.emptyDir))
         (Some (JArr [JStr Sample.link1])))
  = Some {| status := 200; body := Results [Failed Sample.link1 "exitCode 2"] |}.
Proof. reflexivity. Qed.

(** A child that fills both streams and exits with 1: the error text of the
    link is the standard error alone, shorter than the two streams put
    together in either order. *)
Lemma error_text_is_not_both_streams :
  let j := Sample.job "j1" [StdoutData "a"; StderrData "b"; CloseEvent (Some 1%Z)]
             Sample.emptyDir in
  fst (runYtDlp "/srv/downloads" j Sample.link1) =
    Fulfilled (Closed false (Some 1%Z) None "a" "b") /\
  finalRecord Sample.link1 (Closed false (Some 1%Z) None "a" "b") =
    Failed Sample.link1 "b" /\
  "b" <> "a" +:+ "b" /\ "b" <> "b" +:+ "a".
Proof. repeat split; discriminate. Qed.

(** Claim C9, amended.  The outcome of a job carries the captured standard
    output and the captured standard error as two texts, each the chunks of
    its stream put together in order of arrival up to the settling event,
    and both are always there.  On failure the error text of the link is the
    captured standard error when that is not empty, else the captured
    standard output when that is not empty, else, after a [close],
    [exitCode] followed by the code. *)
Theorem outcome_streams_and_error_text (downloads : string) (j : Job)
    (link : string) (events : list Event) (o : Outcome) :
  child j = Child events ->
  fst (runYtDlp downloads j link) = Fulfilled o ->
  r_stdout o = capturedOut events /\
  r_stderr o = capturedErr events /\
  (r_ok o = false ->
   exists error,
     finalRecord link o = Failed link error /\
     (r_stderr o <> "" -> error = r_stderr o) /\
     (r_stderr o = "" -> r_stdout o <> "" -> error = r_stdout o) /\
     (r_stderr o = "" -> r_stdout o = "" ->
      forall code, firstSettling events = Some (CloseEvent code) ->
        error = exitCodeText (Some code))).
Proof.
  intros Hc Ho.
  assert (Hstreams : r_stdout o = capturedOut events /\ r_stderr o = capturedErr events /\
            forall code, firstSettling events = Some (CloseEvent code) ->
              r_exitCode o = Some code).
  { destruct (firstSettling events) as [e|] eqn:He.
    - pose proof (firstSettling_settles _ _ He) as Hs.
      destruct e as [c|c|m|code]; try discriminate.
      + rewrite (runYtDlp_error downloads j link events m Hc He) in Ho.
        injection Ho as <-. repeat split. discriminate.
      + rewrite (runYtDlp_close downloads j link events code Hc He) in Ho.
        injection Ho as <-. repeat split. now intros code' [= ->].
    - rewrite (runYtDlp_pending downloads j link events Hc He) in Ho.
      discriminate. }
  destruct Hstreams as (Hout & Herr & Hcode).
  split; [exact Hout|]. split; [exact Herr|].
  intros Hok. exists (errorText o). unfold finalRecord. rewrite Hok.
  split; [reflexivity|]. unfold errorText. split; [|split].
  - intros H. apply or_truthy. destruct (r_stderr o); [congruence | reflexivity].
  - intros -> H. rewrite or_empty. apply or_truthy.
    destruct (r_stdout o); [congruence | reflexivity].
  - intros -> -> code He. rewrite (Hcode code He). reflexivity.
Qed.

(** Three chunks on two streams, then exit code 1. *)
Lemma outcome_streams_and_error_text_witness :
  let events := [StdoutData "a"; StderrData "b"; StdoutData "c"; CloseEvent (Some 1%Z)] in
  let j := Sample.job "j1" events Sample.emptyDir in
  let o := Closed false (Some 1%Z) None "ac" "b" in
  fst (runYtDlp "/srv/downloads" j Sample.link1) = Fulfilled o /\
  r_stdout o = capturedOut events /\
  r_stderr o = capturedErr events /\
  (r_ok o = false ->
   exists error,
     finalRecord Sample.link1 o = Failed Sample.link1 error /\
     (r_stderr o <> "" -> error = r_stderr o) /\
     (r_stderr o = "" -> r_stdout o <> "" -> error = r_stdout o) /\
     (r_stderr o = "" -> r_stdout o = "" ->
      forall code, firstSettling events = Some (CloseEvent code) ->
        error = exitCodeText (Some code))).
Proof.
  split; [reflexivity|].
  exact (outcome_streams_and_error_text "/srv/downloads"
           (Sample.job "j1"
              [StdoutData "a"; StderrData "b"; StdoutData "c"; CloseEvent (Some 1%Z)]
              Sample.emptyDir)
           Sample.link1
           [StdoutData "a"; StderrData "b"; StdoutData "c"; CloseEvent (Some 1%Z)]
           (Closed false (Some 1%Z) None "ac" "b") eq_refl eq_refl).
Defined.

(** ** A failed spawn *)

(** Claim C5, the code at a failed spawn.  [yt-dlp] is not installed: the
    child emits [error] with the message of the failure and then [close]
    with the negated error number.  The promise is resolved by the [error]
    handler with [ok: false], the message under [err] and no [exitCode];
    the handler of the request never reads [err], and with both streams
    empty the record of the link says [exitCode undefined].  The [error]
    handler does not scan the directory; the [close] that follows does, and
    its outcome is dropped. *)
Theorem spawn_error_message_not_reported :
  let failed := [ErrorEvent "spawn yt-dlp ENOENT"; CloseEvent (Some (-2)%Z)] in
  let w := Sample.always (Sample.job "j1" failed Sample.emptyDir) in
  let w' := Sample.always (Sample.job "j1" [ErrorEvent "spawn yt-dlp ENOENT"]
                             Sample.emptyDir) in
  fst (runYtDlp (DOWNLOADS_DIR w) (jobs w 0%nat) Sample.link1) =
    Fulfilled (SpawnError "spawn yt-dlp ENOENT" "" "") /\
  r_ok (SpawnError "spawn yt-dlp ENOENT" "" "") = false /\
  r_exitCode (SpawnError "spawn yt-dlp ENOENT" "" "") = None /\
  fst (postDownload w (Some (JArr [JStr Sample.link1]))) =
    Some {| status := 200;
            body := Results [Failed Sample.link1 "exitCode undefined"] |} /\
  scanCount (snd (postDownload w (Some (JArr [JStr Sample.link1])))) = 1%nat /\
  fst (postDownload w' (Some (JArr [JStr Sample.link1]))) =
    Some {| status := 200;
            body := Results [Failed Sample.link1 "exitCode undefined"] |} /\
  scanCount (snd (postDownload w' (Some (JArr [JStr Sample.link1])))) = 0%nat.
Proof. repeat split. Qed.

(** ** Whole requests *)

Section Requests.

Variable w : World.

(** Whatever list the loop returns extends [results] by one final record
    per link. *)
Lemma processLinks_fulfilled (links : list string) :
  forall n results log out log',
  processLinks w links n results log = (Fulfilled out, log') ->
  exists rs, out = results ++ rs /\ Forall2 recordOf links rs.
Proof.
  induction links as [|link rest IH]; intros n results log out log' H.
  - injection H as <- _. exists []. rewrite app_nil_r. split; [reflexivity | constructor].
  - cbn [processLinks] in H. destruct (isYouTube link) eqn:Hy; cbn [negb] in H.
    + destruct (runYtDlp (DOWNLOADS_DIR w) (jobs w n) link) as [[o|m|] fx];
        try discriminate.
      rewrite insert_last in H. apply IH in H as (rs & -> & Hrs).
      exists (finalRecord link o :: rs). rewrite <- app_assoc.
      split; [reflexivity|]. constructor; [|exact Hrs]. right. eauto.
    + apply IH in H as (rs & -> & Hrs).
      exists (Invalid link msgNotYouTube :: rs). rewrite <- app_assoc.
      split; [reflexivity|]. constructor; [|exact Hrs]. now left.
Qed.

(** A response with results comes from the loop over the extracted links. *)
Lemma postDownload_results (field : option JsValue) (results : list LinkResult) :
  fst (postDownload w field) = Some {| status := 200; body := Results results |} ->
  exists links, extractLinks field = Normal links /\ Forall2 recordOf links results.
Proof.
  unfold postDownload. destruct (extractLinks field) as [links|m]; [|discriminate].
  destruct (length links =? 0)%nat; [discriminate|].
  destruct (MAX <? length links)%nat; [discriminate|].
  destruct (processLinks w links 0 [] []) as [[out|m|] log] eqn:Hp;
    simpl; try discriminate.
  intros [= <-]. apply processLinks_fulfilled in Hp as (rs & -> & Hrs).
  exists links. now split.
Qed.

(** The effects of a request are those of the loop, if it is entered. *)
Lemma postDownload_effects (field : option JsValue) :
  snd (postDownload w field) = [] \/
  exists links, snd (postDownload w field) = snd (processLinks w links 0 [] []).
Proof.
  unfold postDownload. destruct (extractLinks field) as [links|m]; [|now left].
  destruct (length links =? 0)%nat; [now left|].
  destruct (MAX <? length links)%nat; [now left|].
  right. exists links.
  now destruct (processLinks w links 0 [] []) as [[out|m|] log].
Qed.

End Requests.

Lemma mapString_length (elems : list JsValue) (ss : list string) :
  mapString elems = Normal ss -> length ss = length elems.
Proof.
  revert ss. induction elems as [|v elems IH]; simpl; intros ss H.
  - now injection H as <-.
  - destruct (toStr v) as [s|m]; [|discriminate].
    destruct (mapString elems) as [ss'|m]; [|discriminate].
    injection H as <-. simpl. now rewrite (IH ss' eq_refl).
Qed.

Lemma filterBoolean_length (ss : list string) :
  (length (filterBoolean ss) <= length ss)%nat.
Proof. apply List.filter_length_le. Qed.

(** A request with one link that is not a YouTube link. *)
Lemma invalid_link_message_differs :
  postDownload (Sample.always (Sample.job "j1" [CloseEvent (Some 0%Z)] Sample.emptyDir))
    (Some (JArr [JStr "https://vimeo.com/1"])) =
  (Some {| status := 200;
           body := Results [Invalid "https://vimeo.com/1"
                              "Basic validation failed: not a YouTube link"] |}, []) /\
  Invalid "https://vimeo.com/1" "Basic validation failed: not a YouTube link" <>
  Invalid "https://vimeo.com/1" "not a valid link".
Proof. split; [reflexivity | discriminate]. Qed.

(** Claim C8, amended.  For a link in which [youtu] does not occur, in
    whatever case, the loop pushes
    [{ link, ok: false, message: 'Basic validation failed: not a YouTube link' }]
    and goes on with the next link, with no effect and without using up a
    job; no request ever calls [spawn] with that link; and in every list of
    results a request returns, the record of that link is this one. *)
Theorem invalid_link_skipped (w : World) (link : string) :
  isYouTube link = false ->
  (forall rest n results log,
     processLinks w (link :: rest) n results log =
     processLinks w rest n
       (results ++ [Invalid link "Basic validation failed: not a YouTube link"]) log) /\
  (forall field cmd id,
     ~ In (Spawn cmd (ytDlpArgs (DOWNLOADS_DIR w) id link)) (snd (postDownload w field))) /\
  (forall field results r,
     fst (postDownload w field) = Some {| status := 200; body := Results results |} ->
     In r results -> linkOf r = link ->
     r = Invalid link "Basic validation failed: not a YouTube link").
Proof.
  intros Hy. split; [|split].
  - intros rest n results log. now apply processLinks_invalid.
  - intros field cmd id Hin.
    destruct (postDownload_effects w field) as [E | [links E]]; rewrite E in Hin.
    + destruct Hin.
    + apply processLinks_spawns in Hin as [[] | (l & k & _ & Hl & _ & Hargs)].
      injection Hargs as _ <-. congruence.
  - intros field results r Hres Hin Hlink.
    apply postDownload_results in Hres as (links & _ & Hrs).
    clear - Hrs Hin Hlink Hy. induction Hrs as [|l r' links rs Hr _ IH]; [destruct Hin|].
    destruct Hin as [<- | Hin]; [|now apply IH].
    pose proof (recordOf_link _ _ Hr) as [Hl _].
    destruct Hr as [[_ ->] | [Hyl _]]; simpl in *; unfold msgNotYouTube; congruence.
Qed.

(** A link of another site between two YouTube links. *)
Lemma invalid_link_skipped_witness :
  let w := Sample.always (Sample.job "j1" [CloseEvent (Some 1%Z)] Sample.emptyDir) in
  isYouTube "https://vimeo.com/1" = false /\
  fst (postDownload w
         (Some (JArr [JStr Sample.link1; JStr "https://vimeo.com/1"; JStr Sample.link1]))) =
    Some {| status := 200;
            body := Results [Failed Sample.link1 "exitCode 1";
                             Invalid "https://vimeo.com/1"
                               "Basic validation failed: not a YouTube link";
                             Failed Sample.link1 "exitCode 1"] |} /\
  forall rest n results log,
    processLinks w ("https://vimeo.com/1" :: rest) n results log =
    processLinks w rest n
      (results ++ [Invalid "https://vimeo.com/1"
                     "Basic validation failed: not a YouTube link"]) log.
Proof.
  split; [reflexivity|]. split; [reflexivity|].
  exact (proj1 (invalid_link_skipped
                  (Sample.always (Sample.job "j1" [CloseEvent (Some 1%Z)] Sample.emptyDir))
                  "https://vimeo.com/1" eq_refl)).
Defined.

(** A request of two entries, the first one empty: it is accepted and
    answered with a single record. *)
Lemma empty_entry_shortens_results :
  let w := Sample.always (Sample.job "j1" [CloseEvent (Some 0%Z)]
                            (Sample.dirOf [("j1 - T.mp4", 10%Z)])) in
  let elems := [JStr ""; JStr Sample.link1] in
  fst (postDownload w (Some (JArr elems))) =
    Some {| status := 200;
            body := Results [Downloaded Sample.link1 (Some "/downloads/j1%20-%20T.mp4")] |} /\
  length [Downloaded Sample.link1 (Some "/downloads/j1%20-%20T.mp4")] <> length elems.
Proof. split; [reflexivity | discriminate]. Qed.

(** Claim C4, amended.  When the entries of [links], turned into strings
    and with the empty ones dropped, number between 1 and 15 and every job
    settles, the request is answered with status 200 and a list of results
    that has one record per remaining entry, in their order, each in a final
    form: the validation failure for a link that is not a YouTube link, the
    success or failure record of its job otherwise; no [started] record is
    left.  When every entry is a string that is not empty the list is as
    long as the submitted array and follows its order. *)
Theorem batch_results_in_order (w : World) (elems : list JsValue) (ss : list string) :
  mapString elems = Normal ss ->
  (1 <= length (filterBoolean ss) <= 15)%nat ->
  (forall k, jobSettles (jobs w k) = true) ->
  exists results log,
    postDownload w (Some (JArr elems)) =
      (Some {| status := 200; body := Results results |}, log) /\
    length results = length (filterBoolean ss) /\
    map linkOf results = filterBoolean ss /\
    Forall (fun r => isTerminal r = true) results /\
    Forall2 recordOf (filterBoolean ss) results /\
    (forall strs, elems = map JStr strs -> Forall (fun s => s <> "") strs ->
       map linkOf results = strs /\ length results = length elems).
Proof.
  intros Hm Hlen Hset.
  destruct (postDownload_completes w elems ss Hm Hlen Hset) as (results & log & Hp & Hrs).
  exists results, log. split; [exact Hp|].
  destruct (recordOf_all _ _ Hrs) as (H1 & H2 & H3).
  split; [exact H1|]. split; [exact H2|]. split; [exact H3|]. split; [exact Hrs|].
  intros strs Hs Hne. rewrite Hs, mapString_JStr in Hm. injection Hm as <-.
  rewrite filterBoolean_id in H1, H2 by assumption.
  split; [exact H2|]. now rewrite H1, Hs, length_map.
Qed.

(** Three links: a download that works, a link of another site, and again. *)
Lemma batch_results_in_order_witness :
  let w := Sample.always (Sample.job "j1" [CloseEvent (Some 0%Z)]
                            (Sample.dirOf [("j1 - T.mp4", 10%Z)])) in
  let elems := [JStr Sample.link1; JStr "https://vimeo.com/1"; JStr Sample.link1] in
  exists results log,
    postDownload w (Some (JArr elems)) =
      (Some {| status := 200; body := Results results |}, log) /\
    length results = 3%nat /\
    map linkOf results = [Sample.link1; "https://vimeo.com/1"; Sample.link1] /\
    Forall (fun r => isTerminal r = true) results.
Proof.
  destruct (batch_results_in_order
              (Sample.always (Sample.job "j1" [CloseEvent (Some 0%Z)]
                                (Sample.dirOf [("j1 - T.mp4", 10%Z)])))
              [JStr Sample.link1; JStr "https://vimeo.com/1"; JStr Sample.link1]
              [Sample.link1; "https://vimeo.com/1"; Sample.link1] eq_refl)
    as (results & log & H1 & H2 & H3 & H4 & _).
  - simpl. lia.
  - intros k. reflexivity.
  - exists results, log. auto.
Defined.

(** Sixteen entries, one of them empty: the request is accepted, fifteen
    jobs run and fifteen records come back. *)
Lemma sixteen_entries_accepted :
  let w := Sample.always (Sample.job "j1" [CloseEvent (Some 0%Z)]
                            (Sample.dirOf [("j1 - T.mp4", 10%Z)])) in
  let elems := JStr "" :: repeat (JStr Sample.link1) 15 in
  length elems = 16%nat /\
  fst (postDownload w (Some (JArr elems))) =
    Some {| status := 200;
            body := Results (repeat (Downloaded Sample.link1
                                       (Some "/downloads/j1%20-%20T.mp4")) 15) |} /\
  spawnCount (snd (postDownload w (Some (JArr elems)))) = 15%nat.
Proof. repeat split; vm_compute; reflexivity. Qed.

(** Claim C7, amended.  A request is answered with status 400 and a
    message, with no effect at all and no results, when [links] is missing
    or is not an array, when it is the empty array, when none of its
    entries is left once they are turned into strings and the empty ones
    dropped, and when more than 15 are left.  When between 1 and 15 are
    left the answer is not a 400. *)
Theorem malformed_batches_rejected (w : World) (field : option JsValue) :
  ((forall elems, field <> Some (JArr elems)) ->
   postDownload w field = (Some {| status := 400; body := Message msgNoLinks |}, [])) /\
  (field = Some (JArr []) ->
   postDownload w field = (Some {| status := 400; body := Message msgNoLinks |}, [])) /\
  (forall elems ss, field = Some (JArr elems) -> mapString elems = Normal ss ->
     filterBoolean ss = [] ->
     postDownload w field = (Some {| status := 400; body := Message msgNoLinks |}, [])) /\
  (forall elems ss, field = Some (JArr elems) -> mapString elems = Normal ss ->
     (15 < length (filterBoolean ss))%nat ->
     postDownload w field = (Some {| status := 400; body := Message msgTooMany |}, [])) /\
  (forall elems ss, field = Some (JArr elems) -> mapString elems = Normal ss ->
     (1 <= length (filterBoolean ss) <= 15)%nat ->
     forall r, fst (postDownload w field) = Some r -> status r <> 400%nat).
Proof.
  split; [|split; [|split; [|split]]].
  - intros Hno. destruct field as [[]|]; try reflexivity. now destruct (Hno elems).
  - now intros ->.
  - intros elems ss -> Hm Hnil. unfold postDownload, extractLinks.
    now rewrite Hm, Hnil.
  - intros elems ss -> Hm Hlen. unfold postDownload, extractLinks. rewrite Hm.
    destruct (Nat.eqb_spec (length (filterBoolean ss)) 0) as [E|_]; [lia|].
    destruct (Nat.ltb_spec MAX (length (filterBoolean ss))) as [_|E];
      [reflexivity | unfold MAX in E; lia].
  - intros elems ss -> Hm Hlen r.
    rewrite (postDownload_accepted w elems ss Hm Hlen).
    destruct (processLinks w (filterBoolean ss) 0 [] []) as [[out|m|] log];
      simpl; intros [= <-]; simpl; discriminate.
Qed.

Example messages_of_rejection :
  msgNoLinks = String.concat dquote ["Provide an array of youtube links in "; "links"; ""] /\
  msgTooMany = "Max 15 links at once".
Proof. split; reflexivity. Qed.

(** Claim C10.  Both checks look at the entries of [links] after each has
    been turned into a string and the empty strings have been dropped: a
    request is refused when none is left or more than 15 are left, and
    otherwise, the jobs settling, answered with one record per entry left,
    in order, which is never more and can be fewer than the entries
    submitted.  Sixteen string entries of which exactly one is empty are
    accepted and give fifteen records. *)
Theorem checks_follow_the_filter (w : World) (elems : list JsValue) (ss : list string) :
  mapString elems = Normal ss ->
  (length (filterBoolean ss) = 0%nat ->
   postDownload w (Some (JArr elems)) =
     (Some {| status := 400; body := Message msgNoLinks |}, [])) /\
  ((15 < length (filterBoolean ss))%nat ->
   postDownload w (Some (JArr elems)) =
     (Some {| status := 400; body := Message msgTooMany |}, [])) /\
  ((1 <= length (filterBoolean ss) <= 15)%nat ->
   (forall k, jobSettles (jobs w k) = true) ->
   exists results log,
     postDownload w (Some (JArr elems)) =
       (Some {| status := 200; body := Results results |}, log) /\
     length results = length (filterBoolean ss) /\
     map linkOf results = filterBoolean ss /\
     (length results <= length elems)%nat) /\
  (forall pre post, elems = map JStr (pre ++ "" :: post) ->
     length (pre ++ post) = 15%nat -> Forall (fun s => s <> "") (pre ++ post) ->
     (forall k, jobSettles (jobs w k) = true) ->
     exists results log,
       postDownload w (Some (JArr elems)) =
         (Some {| status := 200; body := Results results |}, log) /\
       map linkOf results = pre ++ post /\
       length results = 15%nat /\ length elems = 16%nat).
Proof.
  intros Hm.
  assert (Hok : (1 <= length (filterBoolean ss) <= 15)%nat ->
            (forall k, jobSettles (jobs w k) = true) ->
            exists results log,
              postDownload w (Some (JArr elems)) =
                (Some {| status := 200; body := Results results |}, log) /\
              length results = length (filterBoolean ss) /\
              map linkOf results = filterBoolean ss /\
              (length results <= length elems)%nat).
  { intros Hlen Hset.
    destruct (postDownload_completes w elems ss Hm Hlen Hset)
      as (results & log & Hp & Hrs).
    destruct (recordOf_all _ _ Hrs) as (H1 & H2 & _).
    exists results, log. repeat split; try assumption.
    rewrite H1, <- (mapString_length elems ss Hm). apply filterBoolean_length. }
  split; [|split; [|split; [exact Hok|]]].
  - intros H0. unfold postDownload, extractLinks. now rewrite Hm, H0.
  - intros Hlen. unfold postDownload, extractLinks. rewrite Hm.
    destruct (Nat.eqb_spec (length (filterBoolean ss)) 0) as [E|_]; [lia|].
    destruct (Nat.ltb_spec MAX (length (filterBoolean ss))) as [_|E];
      [reflexivity | unfold MAX in E; lia].
  - intros pre post He H15 Hne Hset.
    assert (Hss : ss = pre ++ "" :: post).
    { rewrite He, mapString_JStr in Hm. now injection Hm as <-. }
    assert (Hf : filterBoolean ss = pre ++ post).
    { rewrite Hss, filterBoolean_drop. now apply filterBoolean_id. }
    destruct Hok as (results & log & Hp & H1 & H2 & _); [rewrite Hf; lia | exact Hset |].
    exists results, log. rewrite Hf in H1, H2.
    repeat split; try assumption; [congruence|].
    rewrite He, length_map, length_app. simpl. rewrite length_app in H15. lia.
Qed.

(** An empty entry in front of two links. *)
Lemma checks_follow_the_filter_witness :
  let w := Sample.always (Sample.job "j1" [CloseEvent (Some 0%Z)]
                            (Sample.dirOf [("j1 - T.mp4", 10%Z)])) in
  let elems := [JStr ""; JNum 7; JStr Sample.link1] in
  mapString elems = Normal [""; "7"; Sample.link1] /\
  exists results log,
    postDownload w (Some (JArr elems)) =
      (Some {| status := 200; body := Results results |}, log) /\
    length results = 2%nat /\
    map linkOf results = ["7"; Sample.link1] /\
    (length results <= 3)%nat.
Proof.
  split; [reflexivity|].
  destruct (checks_follow_the_filter
              (Sample.always (Sample.job "j1" [CloseEvent (Some 0%Z)]
                                (Sample.dirOf [("j1 - T.mp4", 10%Z)])))
              [JStr ""; JNum 7; JStr Sample.link1]
              [""; "7"; Sample.link1] eq_refl) as (_ & _ & H & _).
  apply H.
  - simpl. lia.
  - intros k. reflexivity.
Defined.

(** * Further properties *)

(** ** The tests on names and links *)

Lemma startsWith_spec (s p : string) :
  Str.startsWith s p = true <-> exists rest, s = p +:+ rest.
Proof.
  unfold Str.startsWith. revert s. induction p as [|a p IH]; intros s.
  - destruct s; simpl; split; eauto.
  - destruct s as [|b s]; simpl.
    + split; [discriminate | intros [rest H]; discriminate].
    + destruct (ascii_dec a b) as [<- | Hne].
      * rewrite IH. split; intros [rest H]; exists rest; congruence.
      * split; [discriminate | intros [rest H]; congruence].
Qed.

Lemma substring_all (p : string) : String.substring 0 (String.length p) p = p.
Proof. induction p as [|c p IH]; simpl; [reflexivity | now rewrite IH]. Qed.

Lemma substring_after (pre p : string) :
  String.substring (String.length pre) (String.length p) (pre +:+ p) = p.
Proof. induction pre as [|c pre IH]; simpl; [apply substring_all | exact IH]. Qed.

Lemma substring_cut (s : string) (k : nat) :
  (k <= String.length s)%nat ->
  s = String.substring 0 k s +:+ String.substring k (String.length s - k) s.
Proof.
  revert k. induction s as [|c s IH]; intros k Hk; simpl in *.
  - destruct k; [reflexivity | lia].
  - destruct k as [|k]; simpl.
    + now rewrite substring_all.
    + f_equal. destruct k as [|k'].
      * simpl. rewrite Nat.sub_0_r. destruct s; simpl; [reflexivity|].
        now rewrite substring_all.
      * specialize (IH (S k') ltac:(lia)). simpl in IH. exact IH.
Qed.

Lemma endsWith_spec (s p : string) :
  Str.endsWith s p = true <-> exists pre, s = pre +:+ p.
Proof.
  unfold Str.endsWith. split.
  - destruct (Nat.leb_spec (String.length p) (String.length s)) as [Hle|]; [|discriminate].
    intros H. apply String.eqb_eq in H.
    exists (String.substring 0 (String.length s - String.length p) s).
    pose proof (substring_cut s (String.length s - String.length p) ltac:(lia)) as Hc.
    replace (String.length s - (String.length s - String.length p))%nat
      with (String.length p) in Hc by lia.
    now rewrite H in Hc.
  - intros [pre ->]. rewrite append_length.
    destruct (Nat.leb_spec (String.length p) (String.length pre + String.length p))
      as [_|]; [|lia].
    replace (String.length pre + String.length p - String.length p)%nat
      with (String.length pre) by lia.
    rewrite substring_after. apply String.eqb_refl.
Qed.

Lemma matchesAt_spec (pat s : string) :
  Str.matchesAt pat s = true <->
  exists mid post, s = mid +:+ post /\ lowerCase mid = pat.
Proof.
  revert s. induction pat as [|p pat IH]; intros s.
  - split; [intros _; exists "", s; split; reflexivity | intros _; now destruct s].
  - destruct s as [|c s]; simpl.
    + split; [discriminate|]. intros ([|x mid] & post & H1 & H2); discriminate.
    + rewrite andb_true_iff, Ascii.eqb_eq, IH. split.
      * intros [-> (mid & post & -> & <-)]. now exists (String c mid), post.
      * intros ([|x mid] & post & H1 & H2); [discriminate|].
        simpl in H1, H2. injection H1 as <- ->. injection H2 as <- <-.
        split; [reflexivity|]. now exists mid, post.
Qed.

Lemma testCI_spec (pat s : string) :
  Str.testCI pat s = true <->
  exists pre mid post, s = pre +:+ mid +:+ post /\ lowerCase mid = pat.
Proof.
  induction s as [|c s IH].
  - simpl. rewrite orb_false_r, matchesAt_spec. split.
    + intros (mid & post & H1 & H2). now exists "", mid, post.
    + intros ([|x pre] & mid & post & H1 & H2); [|discriminate].
      now exists mid, post.
  - cbn [Str.testCI]. rewrite orb_true_iff, matchesAt_spec, IH. split.
    + intros [(mid & post & H1 & H2) | (pre & mid & post & -> & H2)].
      * now exists "", mid, post.
      * now exists (String c pre), mid, post.
    + intros ([|x pre] & mid & post & H1 & H2).
      * left. now exists mid, post.
      * right. simpl in H1. injection H1 as <- ->. now exists pre, mid, post.
Qed.

(** X1.  A link passes the check of the handler exactly when it holds, at
    some place, five characters that are [youtu] once their upper-case
    letters are put in lower case, whatever stands before and after. *)
Theorem isYouTube_iff_contains (link : string) :
  isYouTube link = true <->
  exists pre mid post, link = pre +:+ mid +:+ post /\ lowerCase mid = "youtu".
Proof. apply testCI_spec. Qed.

(** X2.  A name passes the filter of a job exactly when it is the
    identifier of the job, then [" - "], then anything, and is not some text
    followed by [.part]. *)
Theorem isCandidate_iff (id f : string) :
  isCandidate id f = true <->
  (exists rest, f = id +:+ " - " +:+ rest) /\ ~ (exists pre, f = pre +:+ ".part").
Proof.
  unfold isCandidate, jobPrefix.
  rewrite andb_true_iff, negb_true_iff, startsWith_spec, <- endsWith_spec.
  split; intros [[rest H1] H2]; (split; [exists rest|]).
  - now rewrite H1, append_assoc.
  - now rewrite H2.
  - now rewrite H1, append_assoc.
  - now destruct (Str.endsWith f ".part").
Qed.

(** ** The file reference *)

Lemma hexDigit_code (k : nat) :
  (k < 16)%nat ->
  nat_of_ascii (Str.hexDigit k) = if (k <? 10)%nat then (48 + k)%nat else (55 + k)%nat.
Proof.
  intros Hk. unfold Str.hexDigit.
  destruct (k <? 10)%nat; apply nat_ascii_embedding; lia.
Qed.

Lemma hexDigit_inj (k1 k2 : nat) :
  (k1 < 16)%nat -> (k2 < 16)%nat -> Str.hexDigit k1 = Str.hexDigit k2 -> k1 = k2.
Proof.
  intros H1 H2 H. apply (f_equal nat_of_ascii) in H.
  rewrite !hexDigit_code in H by assumption.
  destruct (Nat.ltb_spec k1 10), (Nat.ltb_spec k2 10); lia.
Qed.

Lemma hexDigit_unreserved (k : nat) :
  (k < 16)%nat -> Str.uriUnreserved (Str.hexDigit k) = true.
Proof.
  intros Hk. unfold Str.uriUnreserved. rewrite hexDigit_code by assumption.
  do 16 (destruct k as [|k]; [reflexivity|]). lia.
Qed.

Lemma percent_reserved : Str.uriUnreserved "%" = false.
Proof. reflexivity. Qed.

Lemma ascii_code_split (c : ascii) :
  (nat_of_ascii c / 16 < 16)%nat /\ (nat_of_ascii c mod 16 < 16)%nat.
Proof.
  pose proof (nat_ascii_bounded c) as Hb. split.
  - apply Nat.Div0.div_lt_upper_bound. lia.
  - apply Nat.mod_upper_bound. lia.
Qed.

Lemma hex_pair_inj (x y : ascii) :
  Str.hexDigit (nat_of_ascii x / 16) = Str.hexDigit (nat_of_ascii y / 16) ->
  Str.hexDigit (nat_of_ascii x mod 16) = Str.hexDigit (nat_of_ascii y mod 16) ->
  x = y.
Proof.
  intros H1 H2.
  destruct (ascii_code_split x) as [Hx1 Hx2].
  destruct (ascii_code_split y) as [Hy1 Hy2].
  apply hexDigit_inj in H1; [|assumption..].
  apply hexDigit_inj in H2; [|assumption..].
  assert (Hn : nat_of_ascii x = nat_of_ascii y).
  { rewrite (Nat.div_mod_eq (nat_of_ascii x) 16), (Nat.div_mod_eq (nat_of_ascii y) 16).
    now rewrite H1, H2. }
  apply (f_equal ascii_of_nat) in Hn. now rewrite !ascii_nat_embedding in Hn.
Qed.

Lemma encodeURIComponent_inj (a b : string) :
  Str.encodeURIComponent a = Str.encodeURIComponent b -> a = b.
Proof.
  revert b. induction a as [|x a IH]; intros [|y b]; cbn -[Nat.div Nat.modulo].
  - reflexivity.
  - destruct (Str.uriUnreserved y); discriminate.
  - destruct (Str.uriUnreserved x); discriminate.
  - destruct (Str.uriUnreserved x) eqn:Hx, (Str.uriUnreserved y) eqn:Hy.
    + intros [= -> H]. now rewrite (IH b H).
    + intros [= -> _]. now rewrite percent_reserved in Hx.
    + intros [= <- _]. now rewrite percent_reserved in Hy.
    + intros [= H1 H2 H].
      rewrite (hex_pair_inj x y H1 H2). now rewrite (IH b H).
Qed.

Lemma encodeURIComponent_alphabet (s : string) (c : ascii) :
  In c (list_ascii_of_string (Str.encodeURIComponent s)) ->
  Str.uriUnreserved c = true \/ c = "%"%char.
Proof.
  induction s as [|x s IH]; cbn -[Nat.div Nat.modulo]; [intros []|].
  destruct (Str.uriUnreserved x) eqn:Hx; cbn -[Nat.div Nat.modulo].
  - intros [<- | H]; auto.
  - destruct (ascii_code_split x) as [H1 H2].
    intros [<- | [<- | [<- | H]]]; auto using hexDigit_unreserved.
Qed.

Lemma append_inj_l (p a b : string) : p +:+ a = p +:+ b -> a = b.
Proof. induction p as [|c p IH]; simpl; [auto | intros [= H]; auto]. Qed.

(** The two ways the promise of a job gets fulfilled. *)
Lemma runYtDlp_cases (downloads : string) (j : Job) (link : string) (o : Outcome) :
  fst (runYtDlp downloads j link) = Fulfilled o ->
  exists events, child j = Child events /\
    ((exists m, firstSettling events = Some (ErrorEvent m) /\
        o = SpawnError (Str.or m "yt-dlp spawn error")
              (capturedOut events) (capturedErr events)) \/
     (exists code, firstSettling events = Some (CloseEvent code) /\
        o = closedWith (dir j) (jobId j) code (capturedOut events) (capturedErr events))).
Proof.
  intros Ho. destruct (child j) as [m|events] eqn:Hc.
  - unfold runYtDlp in Ho. rewrite Hc in Ho. discriminate.
  - exists events. split; [reflexivity|].
    destruct (firstSettling events) as [e|] eqn:He.
    + pose proof (firstSettling_settles _ _ He) as Hs.
      destruct e as [c|c|m|code]; try discriminate.
      * rewrite (runYtDlp_error downloads j link events m Hc He) in Ho.
        injection Ho as <-. left. eauto.
      * rewrite (runYtDlp_close downloads j link events code Hc He) in Ho.
        injection Ho as <-. right. eauto.
    + rewrite (runYtDlp_pending downloads j link events Hc He) in Ho. discriminate.
Qed.

Lemma runYtDlp_filename (downloads : string) (j : Job) (link : string)
    (o : Outcome) (p : string) :
  fst (runYtDlp downloads j link) = Fulfilled o -> r_filename o = Some p ->
  exists f, findOutput (dir j) (jobId j) = Some f /\
            p = "/downloads/" +:+ Str.encodeURIComponent f.
Proof.
  intros Ho Hp.
  apply runYtDlp_cases in Ho as (events & _ & [(m & _ & ->) | (code & _ & ->)]).
  - discriminate.
  - unfold closedWith in Hp. simpl in Hp.
    destruct (findOutput (dir j) (jobId j)) as [f|]; [|discriminate].
    destruct (Str.truthy f); [|discriminate]. injection Hp as <-. eauto.
Qed.

(** X3.  The file reference of an outcome names the file the scan found,
    without loss and in characters that are safe in a path: it is
    [/downloads/] followed only by [%] and the characters
    [A-Z a-z 0-9 - _ . ! ~ * ' ( )], so by no slash, space, [?] or [#], and
    any other job whose outcome carries the same reference found a file of
    the same name. *)
Theorem file_reference_faithful (downloads : string) (j : Job) (link : string)
    (o : Outcome) (p : string) :
  fst (runYtDlp downloads j link) = Fulfilled o ->
  r_filename o = Some p ->
  exists f name,
    findOutput (dir j) (jobId j) = Some f /\
    name = Str.encodeURIComponent f /\
    p = "/downloads/" +:+ name /\
    (forall c, In c (list_ascii_of_string name) ->
       Str.uriUnreserved c = true \/ c = "%"%char) /\
    (forall downloads' j' link' o',
       fst (runYtDlp downloads' j' link') = Fulfilled o' ->
       r_filename o' = Some p ->
       findOutput (dir j') (jobId j') = Some f).
Proof.
  intros Ho Hp. destruct (runYtDlp_filename _ _ _ _ _ Ho Hp) as (f & Hf & ->).
  exists f, (Str.encodeURIComponent f). repeat split; try assumption.
  - apply encodeURIComponent_alphabet.
  - intros downloads' j' link' o' Ho' Hp'.
    destruct (runYtDlp_filename _ _ _ _ _ Ho' Hp') as (f' & Hf' & E).
    apply append_inj_l, encodeURIComponent_inj in E. congruence.
Qed.

(** A title with a space, a slash-free name and a question mark. *)
Lemma file_reference_faithful_witness :
  let j := Sample.job "j1" [CloseEvent (Some 0%Z)]
             (Sample.dirOf [("j1 - Why? 100%.mp4", 10%Z)]) in
  fst (runYtDlp "/srv/downloads" j Sample.link1) =
    Fulfilled (Closed true (Some 0%Z) (Some "/downloads/j1%20-%20Why%3F%20100%25.mp4") "" "") /\
  exists f name,
    findOutput (dir j) (jobId j) = Some f /\
    name = Str.encodeURIComponent f /\
    "/downloads/j1%20-%20Why%3F%20100%25.mp4" = "/downloads/" +:+ name /\
    (forall c, In c (list_ascii_of_string name) ->
       Str.uriUnreserved c = true \/ c = "%"%char) /\
    (forall downloads' j' link' o',
       fst (runYtDlp downloads' j' link') = Fulfilled o' ->
       r_filename o' = Some "/downloads/j1%20-%20Why%3F%20100%25.mp4" ->
       findOutput (dir j') (jobId j') = Some f).
Proof.
  split; [reflexivity|].
  exact (file_reference_faithful "/srv/downloads"
           (Sample.job "j1" [CloseEvent (Some 0%Z)]
              (Sample.dirOf [("j1 - Why? 100%.mp4", 10%Z)]))
           Sample.link1
           (Closed true (Some 0%Z) (Some "/downloads/j1%20-%20Why%3F%20100%25.mp4") "" "")
           "/downloads/j1%20-%20Why%3F%20100%25.mp4" eq_refl eq_refl).
Defined.

(** ** More on the promise of a job *)

Lemma firstSettling_app (pre post : list Event) (e : Event) :
  forallb (fun x => negb (settles x)) pre = true -> settles e = true ->
  firstSettling (pre ++ e :: post) = Some e /\
  capturedOut (pre ++ e :: post) = capturedOut pre /\
  capturedErr (pre ++ e :: post) = capturedErr pre.
Proof.
  intros Hpre He. unfold firstSettling.
  induction pre as [|x pre IH]; simpl in *.
  - rewrite He. now destruct e.
  - apply andb_prop in Hpre as [Hx Hpre]. destruct (IH Hpre) as (H1 & H2 & H3).
    destruct x; try discriminate; simpl; now rewrite H1, ?H2, ?H3.
Qed.

(** X4.  Only the first [error] or [close] of a child counts: whatever
    the child emits after it, a [close] after an [error] or late output,
    the promise is fulfilled with the same outcome, made from the text
    received before that event. *)
Theorem first_settlement_wins (downloads : string) (j : Job) (link : string)
    (pre post post' : list Event) (e : Event) :
  forallb (fun x => negb (settles x)) pre = true ->
  settles e = true ->
  exists o,
    fst (runYtDlp downloads (withEvents j (pre ++ e :: post)) link) = Fulfilled o /\
    fst (runYtDlp downloads (withEvents j (pre ++ e :: post')) link) = Fulfilled o /\
    r_stdout o = capturedOut pre /\ r_stderr o = capturedErr pre /\
    (forall m, e = ErrorEvent m -> r_ok o = false /\ r_exitCode o = None) /\
    (forall code, e = CloseEvent code -> r_exitCode o = Some code).
Proof.
  intros Hpre He.
  destruct (firstSettling_app pre post e Hpre He) as (F1 & O1 & E1).
  destruct (firstSettling_app pre post' e Hpre He) as (F2 & O2 & E2).
  destruct e as [c|c|m|code]; try discriminate.
  - eexists. split; [|split].
    + apply (runYtDlp_error downloads (withEvents j (pre ++ ErrorEvent m :: post)) link
               _ m eq_refl F1).
    + rewrite (runYtDlp_error downloads (withEvents j (pre ++ ErrorEvent m :: post')) link
                 _ m eq_refl F2).
      now rewrite O1, O2, E1, E2.
    + simpl. rewrite O1, E1. repeat split; intros; discriminate.
  - eexists. split; [|split].
    + apply (runYtDlp_close downloads (withEvents j (pre ++ CloseEvent code :: post)) link
               _ code eq_refl F1).
    + rewrite (runYtDlp_close downloads (withEvents j (pre ++ CloseEvent code :: post')) link
                 _ code eq_refl F2).
      now rewrite O1, O2, E1, E2.
    + unfold closedWith. simpl. rewrite O1, E1.
      repeat split; intros; try discriminate. congruence.
Qed.

(** A failed spawn followed by the [close] the runtime sends after it, in a
    directory where a file of the job lies. *)
Lemma first_settlement_wins_witness :
  let j := Sample.job "j1" [] (Sample.dirOf [("j1 - T.mp4", 10%Z)]) in
  exists o,
    fst (runYtDlp "/srv/downloads"
           (withEvents j ([StderrData "x"] ++ ErrorEvent "spawn yt-dlp ENOENT" ::
                          [CloseEvent (Some 0%Z); StdoutData "late"])) Sample.link1)
      = Fulfilled o /\
    fst (runYtDlp "/srv/downloads"
           (withEvents j ([StderrData "x"] ++ ErrorEvent "spawn yt-dlp ENOENT" :: []))
           Sample.link1)
      = Fulfilled o /\
    r_stdout o = "" /\ r_stderr o = "x" /\ r_ok o = false.
Proof.
  destruct (first_settlement_wins "/srv/downloads"
              (Sample.job "j1" [] (Sample.dirOf [("j1 - T.mp4", 10%Z)])) Sample.link1
              [StderrData "x"] [CloseEvent (Some 0%Z); StdoutData "late"] []
              (ErrorEvent "spawn yt-dlp ENOENT") eq_refl eq_refl)
    as (o & H1 & H2 & H3 & H4 & H5 & _).
  exists o. repeat split; try assumption.
  exact (proj1 (H5 _ eq_refl)).
Defined.

(** X5.  The object a job is fulfilled with is consistent.  From the
    [error] handler it has no [exitCode], [ok] false, no file reference and
    an [err] text that is never empty.  From the [close] handler it carries
    the exit code; its file reference is there exactly when the scan found
    a file, whatever the exit code; and [ok] is true exactly when the code
    is 0 and the file reference is there. *)
Theorem fulfilled_outcome_consistent (downloads : string) (j : Job) (link : string)
    (o : Outcome) :
  fst (runYtDlp downloads j link) = Fulfilled o ->
  (r_exitCode o = None ->
     r_ok o = false /\ r_filename o = None /\
     exists err out e, o = SpawnError err out e /\ err <> "") /\
  (forall code, r_exitCode o = Some code ->
     (r_filename o = None <-> findOutput (dir j) (jobId j) = None) /\
     (r_ok o = true <-> code = Some 0%Z /\ r_filename o <> None)).
Proof.
  intros Ho.
  apply runYtDlp_cases in Ho as (events & _ & [(m & _ & ->) | (code & _ & ->)]).
  - split; [|discriminate]. intros _. split; [reflexivity|]. split; [reflexivity|].
    exists (Str.or m "yt-dlp spawn error"), (capturedOut events), (capturedErr events).
    split; [reflexivity|]. now destruct m.
  - split; [discriminate|]. intros code' [= <-]. unfold closedWith. simpl.
    destruct (findOutput (dir j) (jobId j)) as [f|] eqn:Hf; simpl.
    + rewrite (findOutput_truthy _ _ _ Hf), andb_true_r, isZero_true.
      repeat split; try discriminate; tauto.
    + rewrite andb_false_r. repeat split; try discriminate; tauto.
Qed.

(** A download that exits with 1 although its file is there: the file
    reference is kept and [ok] is false. *)
Lemma fulfilled_outcome_consistent_witness :
  let j := Sample.job "j1" [CloseEvent (Some 1%Z)] (Sample.dirOf [("j1 - T.mp4", 10%Z)]) in
  let o := Closed false (Some 1%Z) (Some "/downloads/j1%20-%20T.mp4") "" "" in
  fst (runYtDlp "/srv/downloads" j Sample.link1) = Fulfilled o /\
  (r_filename o = None <-> findOutput (dir j) (jobId j) = None) /\
  (r_ok o = true <-> Some 1%Z = Some 0%Z /\ r_filename o <> None).
Proof.
  split; [reflexivity|].
  exact (proj2 (fulfilled_outcome_consistent "/srv/downloads"
                  (Sample.job "j1" [CloseEvent (Some 1%Z)]
                     (Sample.dirOf [("j1 - T.mp4", 10%Z)]))
                  Sample.link1
                  (Closed false (Some 1%Z) (Some "/downloads/j1%20-%20T.mp4") "" "")
                  eq_refl) (Some 1%Z) eq_refl).
Defined.

(** ** More on the scan *)

(** The head of the sorted list is the first of the largest elements of the
    list that was sorted. *)
Lemma sortWith_first_largest (d : Dir) (l : list string) (h : string) (t : list string) :
  sortWith (bySizeDesc d) l = Some (h :: t) ->
  exists before after,
    l = before ++ h :: after /\
    (forall g sg sh, In g before -> statSize d g = Some sg -> statSize d h = Some sh ->
       (sg < sh)%Z) /\
    (forall g, In g after -> sizeLe d g h).
Proof.
  revert h t. induction l as [|x l IH]; simpl; intros h t H; [discriminate|].
  destruct (sortWith (bySizeDesc d) l) as [s|] eqn:Hs; [|discriminate].
  destruct s as [|y ys]; simpl in H.
  - injection H as <- <-. apply sortWith_length in Hs. destruct l; [|discriminate].
    exists [], []. split; [reflexivity|]. split; [intros g sg sh [] | intros g []].
  - destruct (bySizeDesc d x y) as [c|] eqn:Hc; [|discriminate].
    apply bySizeDesc_Some in Hc as (sx & sy & Hx & Hy & ->).
    destruct (sy - sx <=? 0)%Z eqn:Hle.
    + injection H as <- <-. apply Z.leb_le in Hle.
      exists [], l. split; [reflexivity|]. split; [intros g sg sh []|].
      intros g Hg sg sh Hsg Hsh. rewrite Hx in Hsh. injection Hsh as <-.
      apply (sortWith_In _ _ _ Hs) in Hg. destruct Hg as [<- | Hg].
      * rewrite Hy in Hsg. injection Hsg as <-. lia.
      * pose proof (sortWith_headTop _ _ _ Hs g Hg sg sy Hsg Hy). lia.
    + destruct (insertSorted (bySizeDesc d) x ys) as [r|]; [|discriminate].
      injection H as <- <-. apply Z.leb_gt in Hle.
      destruct (IH y ys eq_refl) as (before & after & -> & Hb & Ha).
      exists (x :: before), after. split; [reflexivity|]. split; [|exact Ha].
      intros g sg sh [<- | Hg] Hsg Hsh.
      * rewrite Hx in Hsg. rewrite Hy in Hsh. injection Hsg as <-. injection Hsh as <-. lia.
      * now apply (Hb g sg sh).
Qed.

(** X6.  Among several candidates of the largest size the scan takes the
    one the directory lists first: every candidate listed before the file
    found is strictly smaller than it, every candidate listed after it is
    not larger. *)
Theorem findOutput_first_of_largest (d : Dir) (id f : string) (files : list string) :
  readdirSync d = Some files ->
  findOutput d id = Some f ->
  exists before after,
    List.filter (isCandidate id) files = before ++ f :: after /\
    (forall g sg sf, In g before -> statSize d g = Some sg -> statSize d f = Some sf ->
       (sg < sf)%Z) /\
    (forall g sg sf, In g after -> statSize d g = Some sg -> statSize d f = Some sf ->
       (sg <= sf)%Z).
Proof.
  intros Hdir. unfold findOutput. rewrite Hdir.
  destruct (0 <? length (List.filter (isCandidate id) files))%nat; [|discriminate].
  destruct (sortWith (bySizeDesc d) (List.filter (isCandidate id) files))
    as [[|h t]|] eqn:Hs; simpl; try discriminate.
  intros [= ->].
  destruct (sortWith_first_largest _ _ _ _ Hs) as (before & after & E & Hb & Ha).
  exists before, after. split; [exact E|]. split; [exact Hb|].
  intros g sg sf Hg. now apply Ha.
Qed.

(** Three files of one job, the two largest of equal size. *)
Lemma findOutput_first_of_largest_witness :
  let d := Sample.dirOf [("j1 - a.jpg", 3%Z); ("j1 - b.mp4", 9%Z); ("j1 - c.mkv", 9%Z)] in
  findOutput d "j1" = Some "j1 - b.mp4" /\
  exists before after,
    List.filter (isCandidate "j1") ["j1 - a.jpg"; "j1 - b.mp4"; "j1 - c.mkv"] =
      before ++ "j1 - b.mp4" :: after /\
    (forall g sg sf, In g before -> statSize d g = Some sg ->
       statSize d "j1 - b.mp4" = Some sf -> (sg < sf)%Z) /\
    (forall g sg sf, In g after -> statSize d g = Some sg ->
       statSize d "j1 - b.mp4" = Some sf -> (sg <= sf)%Z).
Proof.
  split; [reflexivity|].
  exact (findOutput_first_of_largest
           (Sample.dirOf [("j1 - a.jpg", 3%Z); ("j1 - b.mp4", 9%Z); ("j1 - c.mkv", 9%Z)])
           "j1" "j1 - b.mp4" ["j1 - a.jpg"; "j1 - b.mp4"; "j1 - c.mkv"] eq_refl eq_refl).
Defined.

(** With two or more elements a sort that goes through has read every size. *)
Lemma sortWith_reads_sizes (d : Dir) (l r : list string) :
  sortWith (bySizeDesc d) l = Some r -> (2 <= length l)%nat ->
  forall g, In g l -> statSize d g <> None.
Proof.
  revert r. induction l as [|x l IH]; simpl; intros r H Hlen g Hg; [lia|].
  destruct (sortWith (bySizeDesc d) l) as [s|] eqn:Hs; [|discriminate].
  pose proof (sortWith_length _ _ _ Hs) as Hsl.
  destruct s as [|y ys]; [simpl in Hsl; lia|]. simpl in H.
  destruct (bySizeDesc d x y) as [c|] eqn:Hc; [|discriminate].
  apply bySizeDesc_Some in Hc as (sx & sy & Hx & Hy & _).
  destruct Hg as [<- | Hg]; [congruence|].
  destruct l as [|a [|b l']]; [destruct Hg | |].
  - simpl in Hs. injection Hs as <- <-. destruct Hg as [<- | []]. congruence.
  - apply (IH (y :: ys) eq_refl); [simpl; lia | exact Hg].
Qed.

(** X7.  Errors of the file system during the scan are swallowed and count
    as no file found: when the directory cannot be listed, or when there
    are two or more candidates and the size of one of them cannot be read,
    a child settled by [close] gives [ok: false] with no file reference,
    whatever its exit code, and the promise is still fulfilled. *)
Theorem scan_errors_give_failure (downloads : string) (j : Job) (link : string)
    (events : list Event) (code : option Z) :
  child j = Child events ->
  firstSettling events = Some (CloseEvent code) ->
  (readdirSync (dir j) = None \/
   exists files g,
     readdirSync (dir j) = Some files /\
     (2 <= length (List.filter (isCandidate (jobId j)) files))%nat /\
     In g files /\ isCandidate (jobId j) g = true /\ statSize (dir j) g = None) ->
  findOutput (dir j) (jobId j) = None /\
  fst (runYtDlp downloads j link) =
    Fulfilled (Closed false code None (capturedOut events) (capturedErr events)).
Proof.
  intros Hc He Hfs.
  assert (Hnone : findOutput (dir j) (jobId j) = None).
  { unfold findOutput. destruct Hfs as [-> | (files & g & -> & Hlen & Hg & Hcand & Hsz)];
      [reflexivity|].
    destruct (0 <? length (List.filter (isCandidate (jobId j)) files))%nat; [|reflexivity].
    destruct (sortWith (bySizeDesc (dir j)) (List.filter (isCandidate (jobId j)) files))
      as [r|] eqn:Hs; [|reflexivity].
    exfalso. apply (sortWith_reads_sizes _ _ _ Hs Hlen g); [|exact Hsz].
    apply filter_In. auto. }
  split; [exact Hnone|].
  rewrite (runYtDlp_close downloads j link events code Hc He).
  unfold closedWith. rewrite Hnone. simpl. now rewrite andb_false_r.
Qed.

(** Two files of the job, one of which vanished before its size was read. *)
Lemma scan_errors_give_failure_witness :
  let d := {| readdirSync := Some ["j1 - a.mp4"; "j1 - b.mp4"];
              statSize := fun f => if String.eqb f "j1 - a.mp4" then Some 5%Z else None |} in
  let j := Sample.job "j1" [CloseEvent (Some 0%Z)] d in
  findOutput d "j1" = None /\
  fst (runYtDlp "/srv/downloads" j Sample.link1) = Fulfilled (Closed false (Some 0%Z) None "" "").
Proof.
  apply (scan_errors_give_failure "/srv/downloads"
           (Sample.job "j1" [CloseEvent (Some 0%Z)]
              {| readdirSync := Some ["j1 - a.mp4"; "j1 - b.mp4"];
                 statSize := fun f => if String.eqb f "j1 - a.mp4" then Some 5%Z else None |})
           Sample.link1 [CloseEvent (Some 0%Z)] (Some 0%Z) eq_refl eq_refl).
  right. exists ["j1 - a.mp4"; "j1 - b.mp4"], "j1 - b.mp4".
  repeat split; simpl; auto.
Defined.

Lemma append_inj_same_length (a b x y : string) :
  String.length a = String.length b -> a +:+ x = b +:+ y -> a = b.
Proof.
  revert b. induction a as [|c a IH]; intros [|c' b]; simpl; try discriminate.
  - reflexivity.
  - intros [= Hl] [= -> H]. now rewrite (IH b Hl H).
Qed.

Lemma filter_none (A : Type) (f : A -> bool) (l : list A) :
  (forall x, In x l -> f x = false) -> List.filter f l = [].
Proof.
  induction l as [|x l IH]; simpl; intros H; [reflexivity|].
  rewrite (H x (or_introl eq_refl)). apply IH. auto.
Qed.

(** X8.  Jobs do not see each other's files.  For two identifiers of the
    same length that differ, as any two distinct UUIDs, a name that starts
    with the prefix of one is no candidate of the other; so files written by
    other jobs, wherever the directory lists them, change nothing in what
    the scan of a job finds. *)
Theorem jobs_are_isolated (id other : string) :
  String.length id = String.length other ->
  id <> other ->
  (forall f, Str.startsWith f (jobPrefix other) = true -> isCandidate id f = false) /\
  (forall d files front back,
     (forall g, In g front -> Str.startsWith g (jobPrefix other) = true) ->
     (forall g, In g back -> Str.startsWith g (jobPrefix other) = true) ->
     findOutput (withFiles d (front ++ files ++ back)) id = findOutput (withFiles d files) id).
Proof.
  intros Hlen Hne.
  assert (Hiso : forall f, Str.startsWith f (jobPrefix other) = true ->
                           isCandidate id f = false).
  { intros f Ho. unfold isCandidate.
    destruct (Str.startsWith f (jobPrefix id)) eqn:Hi; [|reflexivity]. exfalso.
    apply startsWith_spec in Ho as [r1 E1]. apply startsWith_spec in Hi as [r2 E2].
    unfold jobPrefix in E1, E2. rewrite append_assoc in E1, E2. rewrite E1 in E2.
    apply Hne. symmetry. now apply (append_inj_same_length _ _ _ _ (eq_sym Hlen)) in E2. }
  split; [exact Hiso|].
  intros d files front back Hf Hb. unfold findOutput, withFiles. simpl.
  rewrite !List.filter_app.
  rewrite (filter_none _ _ front), (filter_none _ _ back); auto.
  now rewrite app_nil_r.
Qed.

(** Two downloads at once: the larger file of the other job is not taken. *)
Lemma jobs_are_isolated_witness :
  let d := Sample.dirOf [("j2 - U.mp4", 99%Z); ("j1 - T.mp4", 10%Z); ("j2 - U.jpg", 1%Z)] in
  findOutput d "j1" = Some "j1 - T.mp4" /\
  findOutput (withFiles d (["j2 - U.mp4"] ++ ["j1 - T.mp4"] ++ ["j2 - U.jpg"])) "j1" =
  findOutput (withFiles d ["j1 - T.mp4"]) "j1".
Proof.
  split; [reflexivity|].
  apply (proj2 (jobs_are_isolated "j1" "j2" eq_refl ltac:(discriminate))).
  - intros g [<- | []]. reflexivity.
  - intros g [<- | []]. reflexivity.
Defined.

(** ** The calls of [spawn] of a request *)

Lemma spawnCount_filter (log : list Effect) :
  spawnCount log = length (List.filter isSpawn log).
Proof. reflexivity. Qed.

Lemma filter_isSpawn_repeat (path : string) (k : nat) :
  List.filter isSpawn (repeat (Readdir path) k) = [].
Proof. induction k as [|k IH]; simpl; [reflexivity | exact IH]. Qed.

Lemma runYtDlp_spawns (downloads : string) (j : Job) (link : string) :
  List.filter isSpawn (snd (runYtDlp downloads j link)) =
  [Spawn "yt-dlp" (ytDlpArgs downloads (jobId j) link)].
Proof. rewrite runYtDlp_effects. simpl. now rewrite filter_isSpawn_repeat. Qed.

Lemma spawnsFor_skip (w : World) (n : nat) (link : string) (rest : list string) :
  isYouTube link = false -> spawnsFor w n (link :: rest) = spawnsFor w n rest.
Proof. intros H. unfold spawnsFor. simpl. now rewrite H. Qed.

Lemma spawnsFor_take (w : World) (n : nat) (link : string) (rest : list string) :
  isYouTube link = true ->
  spawnsFor w n (link :: rest) =
  Spawn "yt-dlp" (ytDlpArgs (DOWNLOADS_DIR w) (jobId (jobs w n)) link) ::
  spawnsFor w (S n) rest.
Proof. intros H. unfold spawnsFor. simpl. now rewrite H. Qed.

Section Sequence.

Variable w : World.

(** The loop over a first part of the links whose jobs all settle. *)
Lemma processLinks_prefix (pre l : list string) :
  forall n results log,
  (forall k, (n <= k < n + length (List.filter isYouTube pre))%nat ->
     jobSettles (jobs w k) = true) ->
  exists rs log',
    processLinks w (pre ++ l) n results log =
      processLinks w l (n + length (List.filter isYouTube pre)) (results ++ rs) log' /\
    List.filter isSpawn log' = List.filter isSpawn log ++ spawnsFor w n pre.
Proof.
  induction pre as [|link pre IH]; intros n results log Hset.
  - exists [], log. simpl. rewrite Nat.add_0_r, !app_nil_r. now split.
  - destruct (isYouTube link) eqn:Hy.
    + simpl in Hset. rewrite Hy in Hset. simpl in Hset.
      destruct (runYtDlp_fulfilled (DOWNLOADS_DIR w) (jobs w n) link
                  (Hset n ltac:(lia))) as [o Ho].
      simpl app. rewrite (processLinks_run w link (pre ++ l) n results log o Hy Ho).
      destruct (IH (S n) (results ++ [finalRecord link o])
                  (log ++ snd (runYtDlp (DOWNLOADS_DIR w) (jobs w n) link)))
        as (rs & log' & Heq & Hsp).
      { intros k Hk. apply Hset. lia. }
      exists (finalRecord link o :: rs), log'. simpl. rewrite Hy. simpl.
      rewrite Heq, <- app_assoc, Nat.add_succ_r. split; [reflexivity|].
      rewrite Hsp, List.filter_app, runYtDlp_spawns, <- app_assoc.
      now rewrite (spawnsFor_take w n link pre Hy).
    + simpl app. rewrite (processLinks_invalid w link (pre ++ l) n results log Hy).
      destruct (IH n (results ++ [Invalid link msgNotYouTube]) log) as (rs & log' & Heq & Hsp).
      { intros k Hk. apply Hset. simpl. rewrite Hy. exact Hk. }
      exists (Invalid link msgNotYouTube :: rs), log'. simpl. rewrite Hy.
      rewrite Heq, <- app_assoc. split; [reflexivity|].
      now rewrite Hsp, (spawnsFor_skip w n link pre Hy).
Qed.

(** The loop never makes more calls of [spawn] than there are links that
    pass the check. *)
Lemma processLinks_spawn_bound (links : list string) :
  forall n results log,
  (spawnCount (snd (processLinks w links n results log)) <=
   spawnCount log + length (List.filter isYouTube links))%nat.
Proof.
  induction links as [|link rest IH]; intros n results log.
  - simpl. lia.
  - cbn [processLinks]. destruct (isYouTube link) eqn:Hy; cbn [negb].
    + pose proof (runYtDlp_spawns (DOWNLOADS_DIR w) (jobs w n) link) as Hsp.
      destruct (runYtDlp (DOWNLOADS_DIR w) (jobs w n) link) as [r fx]. simpl in Hsp.
      assert (Hfx : spawnCount (log ++ fx) = S (spawnCount log)).
      { rewrite !spawnCount_filter, List.filter_app, length_app, Hsp. simpl. lia. }
      simpl List.filter. rewrite Hy. simpl length.
      destruct r as [o|m|].
      * specialize (IH (S n)
                      (<[(length (results ++ [Started link]) - 1)%nat := finalRecord link o]>
                         (results ++ [Started link])) (log ++ fx)).
        rewrite Hfx in IH. lia.
      * simpl. rewrite Hfx. lia.
      * simpl. rewrite Hfx. lia.
    + simpl List.filter. rewrite Hy. apply IH.
Qed.

End Sequence.

Lemma extractLinks_array (elems : list JsValue) (ss : list string) :
  mapString elems = Normal ss -> extractLinks (Some (JArr elems)) = Normal (filterBoolean ss).
Proof. intros H. unfold extractLinks. now rewrite H. Qed.

(** X9.  When every job settles, an accepted request calls [spawn] once
    for each of its links that passes the check and for no other, in the
    order of the links, the k-th of these calls with the identifier of the
    k-th job, the link as the last of five arguments. *)
Theorem spawns_follow_links (w : World) (elems : list JsValue) (ss : list string) :
  mapString elems = Normal ss ->
  (1 <= length (filterBoolean ss) <= 15)%nat ->
  (forall k, jobSettles (jobs w k) = true) ->
  List.filter isSpawn (snd (postDownload w (Some (JArr elems)))) =
    spawnsFor w 0 (filterBoolean ss) /\
  spawnCount (snd (postDownload w (Some (JArr elems)))) =
    length (List.filter isYouTube (filterBoolean ss)).
Proof.
  intros Hm Hlen Hset.
  assert (Hsp : List.filter isSpawn (snd (postDownload w (Some (JArr elems)))) =
                spawnsFor w 0 (filterBoolean ss)).
  { rewrite (postDownload_accepted w elems ss Hm Hlen).
    destruct (processLinks_prefix w (filterBoolean ss) [] 0%nat [] [])
      as (rs & log' & Heq & Hlog); [intros k _; apply Hset|].
    rewrite app_nil_r in Heq. rewrite Heq. simpl. exact Hlog. }
  split; [exact Hsp|].
  rewrite spawnCount_filter, Hsp. unfold spawnsFor.
  now rewrite length_map, length_combine, length_seq, Nat.min_id.
Qed.

(** Four entries: two links of YouTube around a link of another site and
    an empty entry. *)
Lemma spawns_follow_links_witness :
  let w := {| DOWNLOADS_DIR := "/srv/downloads";
              jobs := fun k => Sample.job (Str.ofZ (Z.of_nat k)) [CloseEvent (Some 1%Z)]
                                 Sample.emptyDir |} in
  let elems := [JStr Sample.link1; JStr "https://vimeo.com/1"; JStr "";
                JStr "http://YOUTUBE.com/w"] in
  List.filter isSpawn (snd (postDownload w (Some (JArr elems)))) =
    [Spawn "yt-dlp" ["--no-progress"; "--no-warnings"; "-o";
                     "/srv/downloads/0 - %(title)s.%(ext)s"; Sample.link1];
     Spawn "yt-dlp" ["--no-progress"; "--no-warnings"; "-o";
                     "/srv/downloads/1 - %(title)s.%(ext)s"; "http://YOUTUBE.com/w"]] /\
  spawnCount (snd (postDownload w (Some (JArr elems)))) = 2%nat.
Proof.
  apply (spawns_follow_links
           {| DOWNLOADS_DIR := "/srv/downloads";
              jobs := fun k => Sample.job (Str.ofZ (Z.of_nat k)) [CloseEvent (Some 1%Z)]
                                 Sample.emptyDir |}
           [JStr Sample.link1; JStr "https://vimeo.com/1"; JStr "";
            JStr "http://YOUTUBE.com/w"]
           [Sample.link1; "https://vimeo.com/1"; ""; "http://YOUTUBE.com/w"] eq_refl).
  - simpl. lia.
  - intros k. reflexivity.
Defined.

Lemma postDownload_log (w : World) (field : option JsValue) :
  snd (postDownload w field) = [] \/
  exists links, extractLinks field = Normal links /\ (length links <= MAX)%nat /\
    snd (postDownload w field) = snd (processLinks w links 0 [] []).
Proof.
  unfold postDownload. destruct (extractLinks field) as [links|m]; [|now left].
  destruct (length links =? 0)%nat; [now left|].
  destruct (Nat.ltb_spec MAX (length links)) as [|Hle]; [now left|].
  right. exists links. split; [reflexivity|]. split; [exact Hle|].
  now destruct (processLinks w links 0 [] []) as [[out|m|] log].
Qed.

(** X10.  Whatever the request and whatever the jobs do, the handler calls
    [spawn] at most 15 times, and each call runs [yt-dlp] with exactly the
    arguments [--no-progress], [--no-warnings], [-o], the output template of
    a job, and, last and unchanged, one of the links extracted from the
    request that passes the check. *)
Theorem spawn_calls_bounded_and_shaped (w : World) (field : option JsValue) :
  (spawnCount (snd (postDownload w field)) <= 15)%nat /\
  (forall cmd args, In (Spawn cmd args) (snd (postDownload w field)) ->
     cmd = "yt-dlp" /\
     exists links link k,
       extractLinks field = Normal links /\ In link links /\ isYouTube link = true /\
       args = ["--no-progress"; "--no-warnings"; "-o";
               DOWNLOADS_DIR w +:+ "/" +:+ jobId (jobs w k) +:+ " - %(title)s.%(ext)s";
               link]).
Proof.
  destruct (postDownload_log w field) as [E | (links & Hx & Hlen & E)]; rewrite E.
  - split; [apply Nat.le_0_l | intros cmd args []].
  - split.
    + pose proof (processLinks_spawn_bound w links 0 [] []) as Hb.
      pose proof (List.filter_length_le isYouTube links) as Hf.
      unfold MAX in Hlen. change (spawnCount []) with 0%nat in Hb. lia.
    + intros cmd args Hin.
      apply processLinks_spawns in Hin as [[] | (link & k & Hl & Hy & -> & ->)].
      split; [reflexivity|]. exists links, link, k. auto.
Qed.

(** ** Jobs that do not end well *)

(** X11.  A job whose child never emits [error] or [close] stalls the
    request for good: no response is ever sent, although the links before it
    were processed, and [spawn] is called for none of the links after it. *)
Theorem unsettled_job_blocks (w : World) (elems : list JsValue) (ss pre rest : list string)
    (link : string) (events : list Event) :
  mapString elems = Normal ss ->
  filterBoolean ss = pre ++ link :: rest ->
  (length (filterBoolean ss) <= 15)%nat ->
  isYouTube link = true ->
  (forall k, (k < length (List.filter isYouTube pre))%nat -> jobSettles (jobs w k) = true) ->
  child (jobs w (length (List.filter isYouTube pre))) = Child events ->
  firstSettling events = None ->
  fst (postDownload w (Some (JArr elems))) = None /\
  List.filter isSpawn (snd (postDownload w (Some (JArr elems)))) =
    spawnsFor w 0 pre ++
    [Spawn "yt-dlp" (ytDlpArgs (DOWNLOADS_DIR w)
                       (jobId (jobs w (length (List.filter isYouTube pre)))) link)].
Proof.
  intros Hm Hss Hlen Hy Hset Hc He.
  assert (Hacc : (1 <= length (filterBoolean ss) <= MAX)%nat).
  { split; [|exact Hlen]. rewrite Hss, length_app. simpl. lia. }
  rewrite (postDownload_accepted w elems ss Hm Hacc), Hss.
  destruct (processLinks_prefix w pre (link :: rest) 0%nat [] [])
    as (rs & log' & Heq & Hlog); [intros k Hk; apply Hset; lia|].
  rewrite Heq. simpl Nat.add. cbn [processLinks]. rewrite Hy. cbn [negb].
  pose proof (runYtDlp_pending (DOWNLOADS_DIR w) _ link events Hc He) as Hp.
  pose proof (runYtDlp_spawns (DOWNLOADS_DIR w)
                (jobs w (length (List.filter isYouTube pre))) link) as Hsp.
  destruct (runYtDlp (DOWNLOADS_DIR w) (jobs w (length (List.filter isYouTube pre))) link)
    as [r fx]. simpl in Hp, Hsp. subst r. simpl.
  split; [reflexivity|]. now rewrite List.filter_app, Hlog, Hsp.
Qed.

(** The second of three downloads hangs. *)
Lemma unsettled_job_blocks_witness :
  let w := {| DOWNLOADS_DIR := "/srv/downloads";
              jobs := fun k => Sample.job (Str.ofZ (Z.of_nat k))
                                 (if (k =? 1)%nat then [StdoutData "..."]
                                  else [CloseEvent (Some 0%Z)])
                                 Sample.emptyDir |} in
  let elems := [JStr Sample.link1; JStr Sample.link1; JStr Sample.link1] in
  fst (postDownload w (Some (JArr elems))) = None /\
  List.filter isSpawn (snd (postDownload w (Some (JArr elems)))) =
    [Spawn "yt-dlp" ["--no-progress"; "--no-warnings"; "-o";
                     "/srv/downloads/0 - %(title)s.%(ext)s"; Sample.link1];
     Spawn "yt-dlp" ["--no-progress"; "--no-warnings"; "-o";
                     "/srv/downloads/1 - %(title)s.%(ext)s"; Sample.link1]].
Proof.
  apply (unsettled_job_blocks
           {| DOWNLOADS_DIR := "/srv/downloads";
              jobs := fun k => Sample.job (Str.ofZ (Z.of_nat k))
                                 (if (k =? 1)%nat then [StdoutData "..."]
                                  else [CloseEvent (Some 0%Z)])
                                 Sample.emptyDir |}
           [JStr Sample.link1; JStr Sample.link1; JStr Sample.link1]
           [Sample.link1; Sample.link1; Sample.link1]
           [Sample.link1] [Sample.link1] Sample.link1 [StdoutData "..."]
           eq_refl eq_refl).
  - simpl. lia.
  - reflexivity.
  - intros k Hk. simpl in Hk. destruct k as [|k]; [reflexivity | lia].
  - reflexivity.
  - reflexivity.
Defined.

(** X12.  When [spawn] itself throws for a link, the request is answered
    with status 500 and the message of the exception, or
    [Internal server error] when that is empty; the records of the links
    before it are not sent, and [spawn] is called for none of the links
    after it. *)
Theorem spawn_exception_gives_500 (w : World) (elems : list JsValue)
    (ss pre rest : list string) (link message : string) :
  mapString elems = Normal ss ->
  filterBoolean ss = pre ++ link :: rest ->
  (length (filterBoolean ss) <= 15)%nat ->
  isYouTube link = true ->
  (forall k, (k < length (List.filter isYouTube pre))%nat -> jobSettles (jobs w k) = true) ->
  child (jobs w (length (List.filter isYouTube pre))) = SpawnThrows message ->
  fst (postDownload w (Some (JArr elems))) =
    Some {| status := 500;
            body := Message (if Str.truthy message then message
                             else "Internal server error") |} /\
  List.filter isSpawn (snd (postDownload w (Some (JArr elems)))) =
    spawnsFor w 0 pre ++
    [Spawn "yt-dlp" (ytDlpArgs (DOWNLOADS_DIR w)
                       (jobId (jobs w (length (List.filter isYouTube pre)))) link)].
Proof.
  intros Hm Hss Hlen Hy Hset Hc.
  assert (Hacc : (1 <= length (filterBoolean ss) <= MAX)%nat).
  { split; [|exact Hlen]. rewrite Hss, length_app. simpl. lia. }
  rewrite (postDownload_accepted w elems ss Hm Hacc), Hss.
  destruct (processLinks_prefix w pre (link :: rest) 0%nat [] [])
    as (rs & log' & Heq & Hlog); [intros k Hk; apply Hset; lia|].
  rewrite Heq. simpl Nat.add. cbn [processLinks]. rewrite Hy. cbn [negb].
  unfold runYtDlp. rewrite Hc. simpl.
  split; [reflexivity|]. rewrite List.filter_app, Hlog. reflexivity.
Qed.

(** The second of three jobs cannot be spawned. *)
Lemma spawn_exception_gives_500_witness :
  let w := {| DOWNLOADS_DIR := "/srv/downloads";
              jobs := fun k =>
                {| jobId := Str.ofZ (Z.of_nat k);
                   child := if (k =? 1)%nat then SpawnThrows "invalid argument"
                            else Child [CloseEvent (Some 0%Z)];
                   dir := Sample.emptyDir |} |} in
  let elems := [JStr Sample.link1; JStr Sample.link1; JStr Sample.link1] in
  fst (postDownload w (Some (JArr elems))) =
    Some {| status := 500; body := Message "invalid argument" |} /\
  spawnCount (snd (postDownload w (Some (JArr elems)))) = 2%nat.
Proof.
  split; [|reflexivity].
  exact (proj1 (spawn_exception_gives_500
           {| DOWNLOADS_DIR := "/srv/downloads";
              jobs := fun k =>
                {| jobId := Str.ofZ (Z.of_nat k);
                   child := if (k =? 1)%nat then SpawnThrows "invalid argument"
                            else Child [CloseEvent (Some 0%Z)];
                   dir := Sample.emptyDir |} |}
           [JStr Sample.link1; JStr Sample.link1; JStr Sample.link1]
           [Sample.link1; Sample.link1; Sample.link1]
           [Sample.link1] [Sample.link1] Sample.link1 "invalid argument"
           eq_refl eq_refl ltac:(simpl; lia) eq_refl
           ltac:(intros [|k] Hk; [reflexivity | simpl in Hk; lia]) eq_refl)).
Defined.

(** ** Entries that cannot be turned into strings *)

(** Induction on values, with the elements of an array covered. *)
Definition JsValue_nested_ind (P : JsValue -> Prop)
    (Hnull : P JNull) (Hbool : forall b, P (JBool b)) (Hnum : forall z, P (JNum z))
    (Hstr : forall s, P (JStr s))
    (Harr : forall elems, Forall P elems -> P (JArr elems))
    (Hobj : forall fields, P (JObj fields)) : forall v, P v :=
  fix go (v : JsValue) : P v :=
    match v with
    | JNull => Hnull
    | JBool b => Hbool b
    | JNum z => Hnum z
    | JStr s => Hstr s
    | JArr elems =>
        Harr elems
          ((fix all (l : list JsValue) : Forall P l :=
              match l return Forall P l with
              | [] => List.Forall_nil P
              | x :: rest => @List.Forall_cons _ P x rest (go x) (all rest)
              end) elems)
    | JObj fields => Hobj fields
    end.

Lemma toStr_cons (x : JsValue) (rest : list JsValue) :
  toStr (JArr (x :: rest)) =
  match (match x with JNull => Normal "" | _ => toStr x end) with
  | Throw m => Throw m
  | Normal s =>
      match rest with
      | [] => Normal s
      | _ :: _ =>
          match toStr (JArr rest) with
          | Throw m => Throw m
          | Normal r => Normal (s +:+ "," +:+ r)
          end
      end
  end.
Proof. destruct x; reflexivity. Qed.

(** [String(v)] throws exactly for the values marked by [unconvertible],
    and then with the one message. *)
Lemma toStr_throws (v : JsValue) :
  match toStr v with
  | Throw m => unconvertible v = true /\ m = cannotConvert
  | Normal _ => unconvertible v = false
  end.
Proof.
  induction v as [| [] | z | s | elems IH | fields] using JsValue_nested_ind;
    try reflexivity.
  - induction IH as [|x rest Hx _ IHrest]; [reflexivity|].
    rewrite toStr_cons. cbn [unconvertible existsb].
    change (existsb unconvertible rest) with (unconvertible (JArr rest)).
    assert (Hel : match (match x with JNull => Normal "" | _ => toStr x end) with
                  | Throw m => unconvertible x = true /\ m = cannotConvert
                  | Normal _ => unconvertible x = false
                  end) by (destruct x; try reflexivity; exact Hx).
    destruct (match x with JNull => Normal "" | _ => toStr x end) as [s|m].
    + rewrite Hel. simpl orb. destruct rest as [|y rest']; [reflexivity|].
      destruct (toStr (JArr (y :: rest'))) as [r|m]; exact IHrest.
    + destruct Hel as [-> ->]. now split.
  - simpl. destruct (hasOwn "toString" fields); [now split | reflexivity].
Qed.

Lemma mapString_throws (elems : list JsValue) :
  match mapString elems with
  | Throw m => existsb unconvertible elems = true /\ m = cannotConvert
  | Normal ss => existsb unconvertible elems = false /\ length ss = length elems
  end.
Proof.
  induction elems as [|v elems IH]; simpl; [now split|].
  pose proof (toStr_throws v) as Hv.
  destruct (toStr v) as [s|m].
  - rewrite Hv. simpl. destruct (mapString elems) as [ss|m].
    + destruct IH as [-> IH]. simpl. now rewrite IH.
    + exact IH.
  - destruct Hv as [-> ->]. now split.
Qed.

(** X13.  An entry of [links] that is an object with a member named
    [toString], or an array that holds one at any depth, cannot be turned
    into a string: the request is answered with status 500 and the message
    of the conversion error, before any check and with no effect.  Every
    other array is converted entry by entry, so the handler goes on to its
    checks. *)
Theorem unconvertible_entry_gives_500 (w : World) (elems : list JsValue) :
  (existsb unconvertible elems = true ->
   postDownload w (Some (JArr elems)) =
     (Some {| status := 500; body := Message cannotConvert |}, [])) /\
  (existsb unconvertible elems = false ->
   exists ss, mapString elems = Normal ss /\ length ss = length elems /\
     extractLinks (Some (JArr elems)) = Normal (filterBoolean ss)).
Proof.
  pose proof (mapString_throws elems) as H.
  unfold postDownload, extractLinks.
  destruct (mapString elems) as [ss|m].
  - destruct H as [H1 H2]. split; [congruence|]. intros _. now exists ss.
  - destruct H as [H1 ->]. split; [reflexivity | congruence].
Qed.

Example unconvertible_samples :
  unconvertible (JArr [JNum 1; JArr [JObj [("toString", JNum 0)]]]) = true /\
  unconvertible (JObj [("a", JObj [("toString", JNull)])]) = false /\
  toStr (JObj [("a", JObj [("toString", JNull)])]) = Normal "[object Object]".
Proof. repeat split. Qed.

(** ** The records and the kinds of response *)

Lemma or_truthy_r (a b : string) : Str.truthy b = true -> Str.truthy (Str.or a b) = true.
Proof. unfold Str.or. destruct (Str.truthy a) eqn:H; auto. Qed.

Lemma errorText_truthy (r : Outcome) : Str.truthy (errorText r) = true.
Proof. unfold errorText. apply or_truthy_r, or_truthy_r. reflexivity. Qed.

Lemma truthy_nonempty (s : string) : Str.truthy s = true -> s <> "".
Proof. destruct s; [discriminate | discriminate]. Qed.

Section Records.

Variable w : World.

Lemma processLinks_madeBy (links : list string) :
  forall n results log out log',
  processLinks w links n results log = (Fulfilled out, log') ->
  exists rs, out = results ++ rs /\ Forall2 (madeBy w) links rs.
Proof.
  induction links as [|link rest IH]; intros n results log out log' H.
  - injection H as <- _. exists []. rewrite app_nil_r. split; [reflexivity | constructor].
  - cbn [processLinks] in H. destruct (isYouTube link) eqn:Hy; cbn [negb] in H.
    + destruct (runYtDlp (DOWNLOADS_DIR w) (jobs w n) link) as [[o|m|] fx] eqn:Hrun;
        try discriminate.
      rewrite insert_last in H. apply IH in H as (rs & -> & Hrs).
      exists (finalRecord link o :: rs). rewrite <- app_assoc.
      split; [reflexivity|]. constructor; [|exact Hrs]. right.
      split; [exact Hy|]. exists n, o. now rewrite Hrun.
    + apply IH in H as (rs & -> & Hrs).
      exists (Invalid link msgNotYouTube :: rs). rewrite <- app_assoc.
      split; [reflexivity|]. constructor; [|exact Hrs]. now left.
Qed.

Lemma postDownload_madeBy (field : option JsValue) (results : list LinkResult) :
  fst (postDownload w field) = Some {| status := 200; body := Results results |} ->
  exists links, extractLinks field = Normal links /\
    (1 <= length links <= MAX)%nat /\ Forall2 (madeBy w) links results.
Proof.
  unfold postDownload. destruct (extractLinks field) as [links|m]; [|discriminate].
  destruct (Nat.eqb_spec (length links) 0) as [|Hne]; [discriminate|].
  destruct (Nat.ltb_spec MAX (length links)) as [|Hle]; [discriminate|].
  destruct (processLinks w links 0 [] []) as [[out|m|] log] eqn:Hp;
    simpl; try discriminate.
  intros [= <-]. apply processLinks_madeBy in Hp as (rs & -> & Hrs).
  exists links. repeat split; try assumption. lia.
Qed.

End Records.

Lemma extractLinks_truthy (field : option JsValue) (links : list string) :
  extractLinks field = Normal links -> Forall (fun s => s <> "") links.
Proof.
  unfold extractLinks. intros H.
  assert (Hf : forall ss, Forall (fun s => s <> "") (filterBoolean ss)).
  { intros ss. apply List.Forall_forall. intros s Hs.
    apply filter_In in Hs as [_ Hs]. now apply truthy_nonempty. }
  destruct field as [[]|]; try (injection H as <-; constructor).
  destruct (mapString elems) as [ss|m]; [|discriminate]. injection H as <-. apply Hf.
Qed.

(** What a record of a response may look like. *)
Definition wellFormed (r : LinkResult) : Prop :=
  linkOf r <> "" /\
  match r with
  | Invalid link message => isYouTube link = false /\ message = msgNotYouTube
  | Started _ => False
  | Downloaded link file =>
      isYouTube link = true /\
      exists f, file = Some ("/downloads/" +:+ Str.encodeURIComponent f)
  | Failed link error => isYouTube link = true /\ error <> ""
  end.

(** X14.  Every record of a list of results the handler sends is well
    formed: its link is not empty; it is the validation failure exactly for
    a link that does not pass the check; a success record always has a file
    reference, which starts with [/downloads/]; a failure record always has
    an error text that is not empty; and no [started] record is ever
    sent. *)
Theorem sent_records_well_formed (w : World) (field : option JsValue)
    (results : list LinkResult) :
  fst (postDownload w field) = Some {| status := 200; body := Results results |} ->
  Forall wellFormed results.
Proof.
  intros H. apply postDownload_madeBy in H as (links & Hx & _ & Hrs).
  apply extractLinks_truthy in Hx.
  induction Hrs as [|link r links rs Hr _ IH]; [constructor|].
  inversion Hx as [|? ? Hl Hls]; subst. constructor; [|now apply IH].
  destruct Hr as [[Hy ->] | (Hy & k & o & Ho & ->)].
  - split; [exact Hl | now split].
  - unfold finalRecord. destruct (r_ok o) eqn:Hok; (split; [exact Hl|]); (split; [exact Hy|]).
    + apply runYtDlp_cases in Ho as (events & _ & [(m & _ & ->) | (code & _ & ->)]);
        [discriminate|].
      unfold closedWith in *. simpl in *.
      destruct (findOutput (dir (jobs w k)) (jobId (jobs w k))) as [f|];
        [|now rewrite andb_false_r in Hok].
      simpl in Hok. apply andb_prop in Hok as [_ Hf]. rewrite Hf. eauto.
    + apply truthy_nonempty, errorText_truthy.
Qed.

(** A request with a download that works, one that fails without output
    and a link of another site. *)
Lemma sent_records_well_formed_witness :
  let w := {| DOWNLOADS_DIR := "/srv/downloads";
              jobs := fun k => Sample.job "j1" [CloseEvent (Some (Z.of_nat k))]
                                 (Sample.dirOf [("j1 - T.mp4", 10%Z)]) |} in
  Forall wellFormed
    [Downloaded Sample.link1 (Some "/downloads/j1%20-%20T.mp4");
     Failed Sample.link1 "exitCode 1";
     Invalid "https://vimeo.com/1" msgNotYouTube].
Proof.
  exact (sent_records_well_formed
           {| DOWNLOADS_DIR := "/srv/downloads";
              jobs := fun k => Sample.job "j1" [CloseEvent (Some (Z.of_nat k))]
                                 (Sample.dirOf [("j1 - T.mp4", 10%Z)]) |}
           (Some (JArr [JStr Sample.link1; JStr Sample.link1; JStr "https://vimeo.com/1"]))
           [Downloaded Sample.link1 (Some "/downloads/j1%20-%20T.mp4");
            Failed Sample.link1 "exitCode 1";
            Invalid "https://vimeo.com/1" msgNotYouTube] eq_refl).
Defined.

(** X15.  A response of the handler is of one of three kinds: status 200
    with a list of between 1 and 15 results, as many as links were extracted
    from the request; status 400 with one of the two messages of the
    checks, sent before any effect; or status 500 with a message that is not
    empty. *)
Theorem response_kinds (w : World) (field : option JsValue) (r : Response) :
  fst (postDownload w field) = Some r ->
  (status r = 200%nat /\
   exists results links,
     body r = Results results /\ extractLinks field = Normal links /\
     length results = length links /\ (1 <= length results <= 15)%nat) \/
  (status r = 400%nat /\
   (body r = Message msgNoLinks \/ body r = Message msgTooMany) /\
   snd (postDownload w field) = []) \/
  (status r = 500%nat /\ exists m, body r = Message m /\ m <> "").
Proof.
  assert (H500 : forall m, exists m', body (internalError m) = Message m' /\ m' <> "").
  { intros m. eexists. split; [reflexivity|].
    apply truthy_nonempty, or_truthy_r. reflexivity. }
  unfold postDownload. destruct (extractLinks field) as [links|m] eqn:Hx.
  - destruct (Nat.eqb_spec (length links) 0) as [|Hne].
    + simpl. intros [= <-]. right. left. simpl. auto.
    + destruct (Nat.ltb_spec MAX (length links)) as [|Hle].
      * simpl. intros [= <-]. right. left. simpl. auto.
      * destruct (processLinks w links 0 [] []) as [[out|m|] log] eqn:Hp; simpl.
        -- intros [= <-]. left. split; [reflexivity|].
           apply processLinks_fulfilled in Hp as (rs & -> & Hrs).
           apply recordOf_all in Hrs as (Hlen & _).
           exists rs, links. simpl. unfold MAX in Hle. repeat split; try assumption; lia.
        -- intros [= <-]. right. right. split; [reflexivity | apply H500].
        -- discriminate.
  - simpl. intros [= <-]. right. right. split; [reflexivity | apply H500].
Qed.

(** A request without [links], answered with the first message. *)
Lemma response_kinds_witness :
  let r := {| status := 400; body := Message msgNoLinks |} in
  fst (postDownload (Sample.always (Sample.job "j1" [] Sample.emptyDir)) None) = Some r /\
  ((status r = 200%nat /\
    exists results links,
      body r = Results results /\ extractLinks None = Normal links /\
      length results = length links /\ (1 <= length results <= 15)%nat) \/
   (status r = 400%nat /\
    (body r = Message msgNoLinks \/ body r = Message msgTooMany) /\
    snd (postDownload (Sample.always (Sample.job "j1" [] Sample.emptyDir)) None) = []) \/
   (status r = 500%nat /\ exists m, body r = Message m /\ m <> "")).
Proof.
  split; [reflexivity|].
  exact (response_kinds (Sample.always (Sample.job "j1" [] Sample.emptyDir)) None
           {| status := 400; body := Message msgNoLinks |} eq_refl).
Defined.

(** ** The effects of one job *)

Lemma scanCount_repeat (path : string) (k : nat) :
  scanCount (repeat (Readdir path) k) = k.
Proof. unfold scanCount. induction k as [|k IH]; simpl; [reflexivity | now rewrite IH]. Qed.

(** X16.  A call of [runYtDlp] calls [spawn] exactly once, before anything
    else, and lists the downloads directory once for every [close] its
    child emits: never when [spawn] throws, never for an [error] or for
    output, and also for a [close] that comes after the promise is
    settled. *)
Theorem job_effects (downloads : string) (j : Job) (link : string) :
  exists scans,
    snd (runYtDlp downloads j link) =
      Spawn "yt-dlp" (ytDlpArgs downloads (jobId j) link) :: repeat (Readdir downloads) scans /\
    spawnCount (snd (runYtDlp downloads j link)) = 1%nat /\
    scanCount (snd (runYtDlp downloads j link)) = scans /\
    scans = match child j with
            | Child events => closeCount events
            | SpawnThrows _ => 0%nat
            end.
Proof.
  eexists. split; [apply runYtDlp_effects|].
  split; [|split; [|reflexivity]].
  - rewrite spawnCount_filter, runYtDlp_spawns. reflexivity.
  - rewrite runYtDlp_effects. apply (scanCount_repeat downloads).
Qed.

Example job_effects_after_error :
  snd (runYtDlp "/srv/downloads"
         (Sample.job "j1" [ErrorEvent "spawn yt-dlp ENOENT"; StdoutData "x";
                           CloseEvent (Some (-2)%Z)] Sample.emptyDir) Sample.link1)
  = [Spawn "yt-dlp" (ytDlpArgs "/srv/downloads" "j1" Sample.link1);
     Readdir "/srv/downloads"].
Proof. reflexivity. Qed.
